(** * VideoMind: the local video pipeline

    A shallow embedding of [backend/director/tools/local_video_processor.py]
    (class [LocalVideoProcessor]) and of the action dispatch of
    [backend/director/agents/local_video_agent.py] (class [LocalVideoAgent]).

    The SQLite index is a record of three tables, a connection is a pair of
    the database file and the connection's own uncommitted view, the files
    under the storage root are a finite map from paths to contents, and the
    external tools (ffmpeg, OpenCV, Whisper, PySceneDetect) are arguments
    that give the outcome of each call.  Python exceptions are values of a
    small error monad.  A Python [str] is held as its UTF-8 encoding, the
    form in which SQLite stores it: a [string] is a sequence of bytes. *)

From Stdlib Require Import ZArith String Ascii List Floats Sorted.
From stdpp Require Import gmap strings sorting pretty.

Local Open Scope string_scope.

(** ** Exceptions and the error monad *)

Inductive exn_class :=
| ValueError
| TypeError
| ZeroDivisionError
| FileNotFoundError
| OSError
| CalledProcessError
| RuntimeError
| SqliteError
| PlainException.

Record exn := Exn { exn_kind : exn_class; exn_str : string }.

Inductive result (A : Type) :=
| Ok (a : A)
| Raise (e : exn).
Arguments Ok {A} a.
Arguments Raise {A} e.

Definition is_ok {A} (m : result A) : bool :=
  match m with Ok _ => true | Raise _ => false end.

(** ** Python values *)

Module Py.

(** [not s] for [s : Optional[str]]: [None] and the empty string are
    falsy. *)
Definition falsy (s : option string) : bool :=
  match s with
  | None => true
  | Some s => String.eqb s ""
  end.

(** The characters [str.isspace] accepts, each as its UTF-8 bytes: the
    ASCII controls 9 to 13 and 28 to 31, the space, U+0085, U+00A0,
    U+1680, U+2000 to U+200A, U+2028, U+2029, U+202F, U+205F and
    U+3000. *)
Definition whitespace : list (list ascii) :=
  map (map ascii_of_nat)
    [[9]; [10]; [11]; [12]; [13]; [28]; [29]; [30]; [31]; [32];
     [194; 133]; [194; 160]; [225; 154; 128];
     [226; 128; 128]; [226; 128; 129]; [226; 128; 130]; [226; 128; 131];
     [226; 128; 132]; [226; 128; 133]; [226; 128; 134]; [226; 128; 135];
     [226; 128; 136]; [226; 128; 137]; [226; 128; 138];
     [226; 128; 168]; [226; 128; 169]; [226; 128; 175];
     [226; 129; 159]; [227; 128; 128]].

(** Dropping from the front of [l] every leading character that is one
    of [ws], a set of characters of one to three bytes each. *)
Fixpoint strip_left (ws : list (list ascii)) (l : list ascii) : list ascii :=
  match l with
  | [] => []
  | c1 :: l1 =>
      if bool_decide ([c1] ∈ ws) then strip_left ws l1
      else
        match l1 with
        | [] => l
        | c2 :: l2 =>
            if bool_decide ([c1; c2] ∈ ws) then strip_left ws l2
            else
              match l2 with
              | [] => l
              | c3 :: l3 =>
                  if bool_decide ([c1; c2; c3] ∈ ws) then strip_left ws l3
                  else l
              end
        end
  end.

Definition lstrip (l : list ascii) : list ascii := strip_left whitespace l.

(** The same from the end: the bytes are read backwards. *)
Definition rstrip (l : list ascii) : list ascii :=
  reverse (strip_left (map reverse whitespace) (reverse l)).

(** [s.strip()] *)
Definition strip (s : string) : string :=
  string_of_list_ascii (rstrip (lstrip (list_ascii_of_string s))).

(** [a / b] on floats: Python raises where IEEE 754 would give an
    infinity or a NaN. *)
Definition truediv (a b : float) : result float :=
  if PrimFloat.eqb b 0%float
  then Raise (Exn ZeroDivisionError "float division by zero")
  else Ok (PrimFloat.div a b).

(** [str(n)] for a non-negative [int]. *)
Definition str_of_nat (n : nat) : string := pretty n.

(** A value that is a [float] or [None]. *)
Definition opt_float := option float.

End Py.

(** ** The SQLite index

    The schema of [_init_database]: [videos] keyed by its TEXT primary key,
    [transcripts] and [scenes] with an AUTOINCREMENT rowid.  The foreign
    keys of [transcripts] and [scenes] are declared, but no connection
    issues [PRAGMA foreign_keys = ON], so no statement checks them. *)

Module Sqlite.

(** A REAL column.  Binding a NaN stores NULL, so a NaN in a row stands
    for NULL: it sorts before every number and is fetched as [None]. *)
Definition is_null (x : float) : bool := PrimFloat.is_nan x.

Definition real_leb (a b : float) : bool :=
  is_null a || (negb (is_null b) && PrimFloat.leb a b).

Definition fetch_real (x : float) : Py.opt_float :=
  if is_null x then None else Some x.

(** The order on the IEEE 754 values behind [real_leb]: NaN, read as NULL,
    comes first. *)
Definition sf_le (x y : spec_float) : bool :=
  match x with
  | S754_nan => true
  | _ => match y with S754_nan => false | _ => SFleb x y end
  end.

(** *** LIKE

    SQLite reads the two operands of LIKE as NUL-terminated UTF-8, one
    character at a time ([sqlite3Utf8Read]): a byte below 0xC0 is a
    character by itself, a byte from 0xC0 on takes every continuation
    byte (0x80 to 0xBF) that follows it.  On well-formed UTF-8 the
    characters read are the code points of the text. *)

Definition is_continuation (b : N) : bool := ((128 <=? b) && (b <? 192))%N.

(** [sqlite3Utf8Trans1]: the payload bits of a leading byte. *)
Definition utf8_trans1 (b : N) : N :=
  (if b <? 224 then b - 192
   else if b <? 240 then b - 224
   else if b <? 248 then b - 240
   else if b <? 252 then b - 248
   else if b <? 254 then b - 252
   else 0)%N.

(** One more continuation byte, in a 32-bit unsigned. *)
Definition utf8_shift (c b : N) : N :=
  ((N.shiftl c 6 + N.land b 63) mod 4294967296)%N.

(** What a multi-byte sequence stands for: U+FFFD when it is over-long, a
    surrogate, or U+FFFE or U+FFFF. *)
Definition utf8_finish (c : N) : N :=
  (if (c <? 128) || (N.land c 4294965248 =? 55296)
      || (N.land c 4294967294 =? 65534)
   then 65533 else c)%N.

(** The characters of a byte string; [cur] is the multi-byte character
    being read, if any. *)
Fixpoint utf8_read (cur : option N) (l : list ascii) : list N :=
  match l with
  | [] => match cur with Some c => [utf8_finish c] | None => [] end
  | a :: l' =>
      let b := N_of_ascii a in
      let next :=
        if (b <? 192)%N then b :: utf8_read None l'
        else utf8_read (Some (utf8_trans1 b)) l' in
      match cur with
      | Some c =>
          if is_continuation b then utf8_read (Some (utf8_shift c b)) l'
          else utf8_finish c :: next
      | None => next
      end
  end.

Definition utf8_decode (s : string) : list N :=
  utf8_read None (list_ascii_of_string s).

(** Up to the first NUL. *)
Fixpoint c_string (l : list N) : list N :=
  match l with
  | [] => []
  | c :: l' => if (c =? 0)%N then [] else c :: c_string l'
  end.

(** [sqlite3UpperToLower] on a byte. *)
Definition tolower (c : ascii) : ascii :=
  let n := nat_of_ascii c in
  if Nat.leb 65 n && Nat.leb n 90 then ascii_of_nat (n + 32) else c.

(** Two characters that LIKE takes for the same: equal, or ASCII letters
    that differ in case only. *)
Definition char_eq_nocase (a b : N) : bool :=
  (a =? b)%N
  || ((a <? 128)%N && (b <? 128)%N
      && Ascii.eqb (tolower (ascii_of_N a)) (tolower (ascii_of_N b))).

Definition match_all : ascii := "%"%char.
Definition match_one : ascii := "_"%char.

(** [patternCompare] without ESCAPE: [%] matches any run of characters,
    [_] one character, any other character itself up to the case of the
    26 ASCII letters. *)
Fixpoint like_chars (pattern : list N) : list N -> bool :=
  match pattern with
  | [] => fun text => match text with [] => true | _ :: _ => false end
  | p :: pattern' =>
      if (p =? N_of_ascii match_all)%N then
        fix skip (text : list N) : bool :=
          like_chars pattern' text
          || match text with [] => false | _ :: text' => skip text' end
      else
        fun text =>
          match text with
          | [] => false
          | c :: text' =>
              ((p =? N_of_ascii match_one)%N || char_eq_nocase p c)
              && like_chars pattern' text'
          end
  end.

(** [text LIKE pattern] *)
Definition like (text pattern : string) : bool :=
  like_chars (c_string (utf8_decode pattern)) (c_string (utf8_decode text)).

(** SQLITE_MAX_LIKE_PATTERN_LENGTH: LIKE refuses a pattern of more
    bytes. *)
Definition like_pattern_limit : N := 50000.

Definition like_pattern_ok (pattern : string) : bool :=
  (N.of_nat (String.length pattern) <=? like_pattern_limit)%N.

(** The specification's reading of the search, for comparison: [text]
    contains [query] as a substring, the ASCII letters compared without
    case.  (On UTF-8, a substring of bytes that is itself a text is a
    substring of characters.) *)
Definition byte_eq_nocase (a b : ascii) : bool :=
  Ascii.eqb (tolower a) (tolower b).

Fixpoint prefix_nocase (query text : list ascii) : bool :=
  match query, text with
  | [], _ => true
  | _ :: _, [] => false
  | q :: query', c :: text' => byte_eq_nocase q c && prefix_nocase query' text'
  end.

Fixpoint contains_chars (query text : list ascii) : bool :=
  prefix_nocase query text
  || match text with
     | [] => false
     | _ :: text' => contains_chars query text'
     end.

Definition contains_nocase (text query : string) : bool :=
  contains_chars (list_ascii_of_string query) (list_ascii_of_string text).

(** A string of ASCII characters. *)
Definition ascii_only (s : string) : bool :=
  forallb (fun c => (N_of_ascii c <? 128)%N) (list_ascii_of_string s).

(** A query in which no character is a LIKE wildcard. *)
Definition wildcard_free (query : string) : bool :=
  forallb (fun c => negb (Ascii.eqb c match_all) && negb (Ascii.eqb c match_one))
    (list_ascii_of_string query).

(** A string with no NUL in it. *)
Definition nul_free (s : string) : bool :=
  forallb (fun c => negb (Ascii.eqb c Ascii.zero)) (list_ascii_of_string s).

(** A string as C reads it: up to its first NUL. *)
Fixpoint until_nul (s : string) : string :=
  match s with
  | EmptyString => EmptyString
  | String c s' => if Ascii.eqb c Ascii.zero then EmptyString
      else String c (until_nul s')
  end.

Record video_row := VideoRow {
  v_filename : string;
  v_duration : float;
  v_fps : float;
  v_width : Z;
  v_height : Z;
  v_created_at : string }.

Record transcript_row := TranscriptRow {
  t_id : Z;
  t_video_id : string;
  t_start_time : float;
  t_end_time : float;
  t_text : string;
  t_confidence : float }.

Record scene_row := SceneRow {
  s_id : Z;
  s_video_id : string;
  s_scene_number : Z;
  s_start_time : float;
  s_end_time : float;
  s_frame_path : string }.

(** The [*_seq] fields are the rows of [sqlite_sequence]: the largest
    rowid ever handed out by each AUTOINCREMENT table. *)
Record database := Database {
  videos : gmap string video_row;
  transcripts : list transcript_row;
  transcripts_seq : Z;
  scenes : list scene_row;
  scenes_seq : Z }.

Definition empty_database : database := Database ∅ [] 0 [] 0.

(** The statements the processor executes, with their bound parameters. *)
Inductive stmt :=
| InsertOrReplaceVideo (id filename : string) (duration fps : float)
    (width height : Z)
| DeleteTranscripts (video_id : string)
| InsertTranscript (video_id : string) (start_time end_time : float)
    (text : string) (confidence : float)
| DeleteScenes (video_id : string)
| InsertScene (video_id : string) (scene_number : Z)
    (start_time end_time : float) (frame_path : string).

(** One statement on a database; [now] is CURRENT_TIMESTAMP. *)
Definition exec (now : string) (s : stmt) (d : database) : database :=
  match s with
  | InsertOrReplaceVideo id filename duration fps width height =>
      Database
        (<[id := VideoRow filename duration fps width height now]> (videos d))
        (transcripts d) (transcripts_seq d) (scenes d) (scenes_seq d)
  | DeleteTranscripts video_id =>
      Database (videos d)
        (filter (fun r => t_video_id r ≠ video_id) (transcripts d))
        (transcripts_seq d) (scenes d) (scenes_seq d)
  | InsertTranscript video_id start_time end_time text confidence =>
      let rowid := (transcripts_seq d + 1)%Z in
      Database (videos d)
        (transcripts d ++
           [TranscriptRow rowid video_id start_time end_time text confidence])
        rowid (scenes d) (scenes_seq d)
  | DeleteScenes video_id =>
      Database (videos d) (transcripts d) (transcripts_seq d)
        (filter (fun r => s_video_id r ≠ video_id) (scenes d))
        (scenes_seq d)
  | InsertScene video_id scene_number start_time end_time frame_path =>
      let rowid := (scenes_seq d + 1)%Z in
      Database (videos d) (transcripts d) (transcripts_seq d)
        (scenes d ++
           [SceneRow rowid video_id scene_number start_time end_time
              frame_path])
        rowid
  end.

(** The statements of a method body applied in order. *)
Definition exec_all (now : string) (ss : list stmt) (d : database)
    : database :=
  fold_left (fun d s => exec now s d) ss d.
Arguments exec_all : simpl never.

(** Whether the fault falls on one of the calls of a body of [n]
    statements and a commit. *)
Definition fault_hits (fault : option nat) (n : nat) : bool :=
  match fault with
  | Some k => Nat.leb k n
  | None => false
  end.

(** The rows a run of INSERTs appends to [transcripts] when the sequence
    stands at [seq]. *)
Fixpoint transcript_rows (seq : Z) (ss : list stmt) : list transcript_row :=
  match ss with
  | InsertTranscript video_id start_time end_time text confidence :: ss' =>
      TranscriptRow (seq + 1) video_id start_time end_time text confidence
        :: transcript_rows (seq + 1) ss'
  | _ :: ss' => transcript_rows seq ss'
  | [] => []
  end.

(** The same for [scenes]. *)
Fixpoint scene_rows (seq : Z) (ss : list stmt) : list scene_row :=
  match ss with
  | InsertScene video_id scene_number start_time end_time frame_path :: ss' =>
      SceneRow (seq + 1) video_id scene_number start_time end_time frame_path
        :: scene_rows (seq + 1) ss'
  | _ :: ss' => scene_rows seq ss'
  | [] => []
  end.

(** A connection: the database file as every other connection reads it,
    and this connection's view, which holds its uncommitted writes. *)
Record connection := Connection {
  db_file : database;
  txn : database }.

Definition connect (d : database) : connection := Connection d d.

Definition execute (now : string) (s : stmt) (c : connection) : connection :=
  Connection (db_file c) (exec now s (txn c)).

Definition commit (c : connection) : connection :=
  Connection (txn c) (txn c).

(** Closing, or dropping, a connection discards what it did not commit. *)
Definition close (c : connection) : database := db_file c.

Definition sqlite_error : exn := Exn SqliteError "sqlite3.Error".

(** [cursor.execute] of each statement in turn and then [conn.commit()].
    [fault = Some k] makes the call number [k] (statements from 0, the
    commit last) raise [sqlite3.Error]; [None] is a run without error.
    The connection is returned as the raise leaves it. *)
Fixpoint run_stmts (now : string) (fault : option nat) (ss : list stmt)
    (c : connection) : result unit * connection :=
  match ss with
  | [] =>
      match fault with
      | Some 0 => (Raise sqlite_error, c)
      | _ => (Ok tt, commit c)
      end
  | s :: ss' =>
      match fault with
      | Some 0 => (Raise sqlite_error, c)
      | Some (S k) => run_stmts now (Some k) ss' (execute now s c)
      | None => run_stmts now None ss' (execute now s c)
      end
  end.

(** A method body of the shape connect, execute..., commit, close.  When a
    call raises, the method is left with the transaction open and the
    connection is dropped, which closes it. *)
Definition transaction (now : string) (fault : option nat) (ss : list stmt)
    (d : database) : result unit * database :=
  let (r, c) := run_stmts now fault ss (connect d) in (r, close c).

(** [ORDER BY start_time] *)
Definition transcript_le (r1 r2 : transcript_row) : Prop :=
  real_leb (t_start_time r1) (t_start_time r2) = true.

#[global] Instance transcript_le_dec : RelDecision transcript_le :=
  fun r1 r2 => decide (real_leb (t_start_time r1) (t_start_time r2) = true).

(** SQLite's sorter keeps the rows of equal [start_time] in the order in
    which the scan of the table, in rowid order, fed them to it. *)
Fixpoint insert_by_start_time (r : transcript_row) (l : list transcript_row)
    : list transcript_row :=
  match l with
  | [] => [r]
  | r' :: l' =>
      if real_leb (t_start_time r) (t_start_time r') then r :: l
      else r' :: insert_by_start_time r l'
  end.

Definition order_by_start_time (l : list transcript_row)
    : list transcript_row :=
  foldr insert_by_start_time [] l.

Definition pattern_too_complex : exn :=
  Exn SqliteError "LIKE or GLOB pattern too complex".

(** [SELECT ... FROM transcripts WHERE video_id = ? AND text LIKE ?
    ORDER BY start_time].  LIKE is evaluated on the rows of the video
    only, and raises on the first of them when the pattern is over the
    limit. *)
Definition select_transcripts (d : database) (video_id pattern : string)
    : result (list transcript_row) :=
  let rows := filter (fun r => t_video_id r = video_id) (transcripts d) in
  match rows with
  | [] => Ok []
  | _ :: _ =>
      if like_pattern_ok pattern
      then Ok (order_by_start_time
                 (filter (fun r => like (t_text r) pattern = true) rows))
      else Raise pattern_too_complex
  end.

(** [SELECT ... FROM videos WHERE id = ?], [fetchone] *)
Definition select_video (d : database) (id : string) : option video_row :=
  videos d !! id.

End Sqlite.

(** ** LocalVideoProcessor *)

Module LocalVideoProcessor.
Import Sqlite.

(** The contents of a file. *)
Definition blob := string.

(** What a call can change: the SQLite index and the files on disk, each
    file under the path by which the processor names it. *)
Record state := State {
  store : database;
  files : gmap string blob }.

(** Computations that read and write the state and may raise.  The state
    is returned on a raise too: what was written before it stays. *)
Definition M (A : Type) : Type := state -> result A * state.

Definition ret {A} (a : A) : M A := fun st => (Ok a, st).

Definition raise {A} (e : exn) : M A := fun st => (Raise e, st).

Definition lift {A} (r : result A) : M A := fun st => (r, st).

Definition bind {A B} (m : M A) (k : A -> M B) : M B :=
  fun st =>
    match m st with
    | (Ok a, st') => k a st'
    | (Raise e, st') => (Raise e, st')
    end.

(** [try: body except Exception as e: handler e] *)
Definition try_except {A} (body : M A) (handler : exn -> M A) : M A :=
  fun st =>
    match body st with
    | (Ok a, st') => (Ok a, st')
    | (Raise e, st') => handler e st'
    end.

Declare Scope py_scope.
Delimit Scope py_scope with py.
Notation "x <- m ;; k" := (bind m (fun x => k))
  (at level 100, m at next level, right associativity) : py_scope.
Notation "m ;;; k" := (bind m (fun _ => k))
  (at level 100, right associativity) : py_scope.
Local Open Scope py_scope.

(** Creating or overwriting a file. *)
Definition write_file (path : string) (content : blob) : M unit :=
  fun st => (Ok tt, State (store st) (<[path := content]> (files st))).

(** [os.remove(path)] *)
Definition os_remove (path : string) : M unit :=
  fun st =>
    match files st !! path with
    | Some _ => (Ok tt, State (store st) (delete path (files st)))
    | None => (Raise (Exn FileNotFoundError path), st)
    end.

(** A connect / execute / commit / close method body on the index. *)
Definition with_connection (now : string) (fault : option nat)
    (ss : list stmt) : M unit :=
  fun st =>
    let (r, d) := transaction now fault ss (store st) in
    (r, State d (files st)).

(** [self]: the storage root and whether [whisper.load_model] succeeded
    in [__init__]. *)
Record processor := Processor {
  storage_path : string;
  whisper_model : bool }.

(** *** Paths: [pathlib.PurePosixPath]

    A path is a root ([""], ["/"] or ["//"]) and its parts; parsing a
    string drops the empty components and the ["."] components, and [str]
    of a path with no root and no part is ["."].  The paths the processor
    keeps are held as their [str]. *)

(** The components between the slashes. *)
Fixpoint split_slash (s : string) : list string :=
  match s with
  | EmptyString => [""]
  | String c s' =>
      if Ascii.eqb c "/" then "" :: split_slash s'
      else
        match split_slash s' with
        | p :: ps => String c p :: ps
        | [] => [String c ""]
        end
  end.

Definition path_parts (s : string) : list string :=
  filter (fun p => p ≠ "" ∧ p ≠ ".") (split_slash s).

(** Exactly two leading slashes are a root of their own. *)
Definition path_root (s : string) : string :=
  match s with
  | String "/" (String "/" (String "/" _)) => "/"
  | String "/" (String "/" _) => "//"
  | String "/" _ => "/"
  | _ => ""
  end.

Fixpoint join_slash (parts : list string) : string :=
  match parts with
  | [] => ""
  | [p] => p
  | p :: parts' => p ++ "/" ++ join_slash parts'
  end.

(** [str(path)] *)
Definition path_str (root : string) (parts : list string) : string :=
  match root, parts with
  | EmptyString, [] => "."
  | _, _ => root ++ join_slash parts
  end.

(** [str(Path(dir) / name)]: an absolute [name] replaces [dir]. *)
Definition path_join (dir name : string) : string :=
  match path_root name with
  | EmptyString => path_str (path_root dir) (path_parts dir ++ path_parts name)
  | root => path_str root (path_parts name)
  end.

Definition videos_path (self : processor) : string :=
  path_join (storage_path self) "videos".
Definition frames_path (self : processor) : string :=
  path_join (storage_path self) "frames".
Definition transcripts_path (self : processor) : string :=
  path_join (storage_path self) "transcripts".

(** [Path(p).name]: the last part, or the empty string. *)
Definition path_name (p : string) : string :=
  default "" (last (path_parts p)).

(** The properties an opened [cv2.VideoCapture] reports.  OpenCV holds the
    frame size as integers, which [int(cap.get(...))] gives back. *)
Record video_capture := VideoCapture {
  CAP_PROP_FPS : float;
  CAP_PROP_FRAME_COUNT : float;
  CAP_PROP_FRAME_WIDTH : Z;
  CAP_PROP_FRAME_HEIGHT : Z }.

(** One segment of Whisper's result; [avg_logprob] may be missing. *)
Record whisper_segment := WhisperSegment {
  w_start : float;
  w_end : float;
  w_text : string;
  w_avg_logprob : option float }.

Record whisper_result := WhisperResult {
  w_full_text : string;
  w_segments : list whisper_segment }.

(** What the world outside the processor does during one call: the
    outcome of each external tool, the clock and the fault of the index. *)
Record env := Env {
  (** [Path(video_path).stem + "_" + str(int(datetime.now().timestamp()))] *)
  generated_id : string;
  (** ffmpeg of [_convert_video]: the file it writes, or its failure *)
  ffmpeg_convert : result blob;
  (** the capture OpenCV opens on the converted file *)
  cv2_capture : video_capture;
  (** the name [tempfile.NamedTemporaryFile] picks *)
  tmp_audio_path : string;
  (** ffmpeg of [_extract_audio] *)
  ffmpeg_audio : result blob;
  (** [whisper_model.transcribe] *)
  whisper_transcribe : result whisper_result;
  (** [open(transcript_file, 'w')] and [json.dump]: the text written *)
  json_dump : result blob;
  (** [open_video] and [SceneManager.detect_scenes] at a threshold: the
      (start, end) pairs in seconds *)
  scene_detect : float -> result (list (float * float));
  (** ffmpeg of [_extract_keyframe] for the scene of each number *)
  ffmpeg_keyframe : nat -> result blob;
  (** CURRENT_TIMESTAMP *)
  current_timestamp : string;
  (** which call on the index raises, if any *)
  sqlite_fault : option nat }.

(** The dictionaries that flow between the methods. *)
Record video_info := VideoInfo {
  filename : string;
  duration : float;
  fps : float;
  width : Z;
  height : Z }.

Record segment := Segment {
  start_time : float;
  end_time : float;
  text : string;
  confidence : float }.

Record scene := Scene {
  scene_number : nat;
  scene_start_time : float;
  scene_end_time : float;
  frame_path : string }.

(** A row of [search_transcript]'s result: a NULL is fetched as [None]. *)
Record hit := Hit {
  hit_start_time : Py.opt_float;
  hit_end_time : Py.opt_float;
  hit_text : string;
  hit_confidence : Py.opt_float }.

(** The dictionary of [get_video_info]. *)
Record video_record := VideoRecord {
  rec_id : string;
  rec_filename : string;
  rec_duration : Py.opt_float;
  rec_fps : Py.opt_float;
  rec_width : Z;
  rec_height : Z;
  rec_created_at : string }.

(** [{"success": True, ...}] or [{"success": False, "error": str(e)}] *)
Inductive response (A : Type) :=
| Success (payload : A)
| Failure (error : string).
Arguments Success {A} payload.
Arguments Failure {A} error.

Record upload_payload := UploadPayload {
  up_video_id : string;
  up_video_info : video_info }.

Record transcribe_payload := TranscribePayload {
  transcript : list segment;
  full_text : string }.

Record detect_payload := DetectPayload {
  scenes_data : list scene;
  total_scenes : nat }.

(** The rows of one video, in rowid order. *)
Definition transcripts_of (d : database) (video_id : string)
    : list transcript_row :=
  filter (fun r => t_video_id r = video_id) (transcripts d).

Definition scenes_of (d : database) (video_id : string) : list scene_row :=
  filter (fun r => s_video_id r = video_id) (scenes d).

Definition segment_of_row (r : transcript_row) : segment :=
  Segment (t_start_time r) (t_end_time r) (t_text r) (t_confidence r).

Definition scene_of_row (r : scene_row) : scene :=
  Scene (Z.to_nat (s_scene_number r)) (s_start_time r) (s_end_time r)
    (s_frame_path r).

(** The file [_extract_keyframe] writes for a scene of a video. *)
Definition keyframe_path (self : processor) (video_id : string)
    (scene_num : nat) : string :=
  path_join (frames_path self)
    (video_id ++ "_scene_" ++ Py.str_of_nat scene_num ++ ".jpg").

(** The scene dictionaries of a list of boundary pairs numbered from
    [i] on. *)
Fixpoint scenes_at (self : processor) (video_id : string) (i : nat)
    (scene_list : list (float * float)) : list scene :=
  match scene_list with
  | [] => []
  | (start_time, end_time) :: rest =>
      Scene i start_time end_time (keyframe_path self video_id i)
        :: scenes_at self video_id (S i) rest
  end.

(** *** Private helpers *)

Definition _convert_video (e : env) (input_path output_path : string)
    : M unit :=
  content <- lift (ffmpeg_convert e) ;;
  write_file output_path content.

(** The temporary file is created, and kept ([delete=False]), before
    ffmpeg runs. *)
Definition _extract_audio (e : env) (video_path : string) : M string :=
  let audio_path := tmp_audio_path e in
  write_file audio_path "" ;;;
  content <- lift (ffmpeg_audio e) ;;
  write_file audio_path content ;;;
  ret audio_path.

Definition _extract_keyframe (self : processor) (e : env)
    (video_path : string) (timestamp : float) (video_id : string)
    (scene_num : nat) : M string :=
  let frame_filename :=
    video_id ++ "_scene_" ++ Py.str_of_nat scene_num ++ ".jpg" in
  let frame_path := path_join (frames_path self) frame_filename in
  content <- lift (ffmpeg_keyframe e scene_num) ;;
  write_file frame_path content ;;;
  ret frame_path.

(** [duration = frame_count / fps if fps > 0 else 0] *)
Definition _get_video_info (e : env) (video_path : string) : M video_info :=
  let cap := cv2_capture e in
  let fps := CAP_PROP_FPS cap in
  let frame_count := CAP_PROP_FRAME_COUNT cap in
  let width := CAP_PROP_FRAME_WIDTH cap in
  let height := CAP_PROP_FRAME_HEIGHT cap in
  duration <- (if PrimFloat.ltb 0%float fps
               then lift (Py.truediv frame_count fps)
               else ret 0%float) ;;
  ret (VideoInfo (path_name video_path) duration fps width height).

Definition _save_video_to_db (e : env) (video_id : string)
    (info : video_info) : M unit :=
  with_connection (current_timestamp e) (sqlite_fault e)
    [InsertOrReplaceVideo video_id (filename info) (duration info)
       (fps info) (width info) (height info)].

Definition insert_segment (video_id : string) (s : segment) : stmt :=
  InsertTranscript video_id (start_time s) (end_time s) (text s)
    (confidence s).

Definition _save_transcript_to_db (e : env) (video_id : string)
    (transcript_data : list segment) : M unit :=
  with_connection (current_timestamp e) (sqlite_fault e)
    (DeleteTranscripts video_id
       :: map (insert_segment video_id) transcript_data).

Definition insert_scene (video_id : string) (s : scene) : stmt :=
  InsertScene video_id (Z.of_nat (scene_number s)) (scene_start_time s)
    (scene_end_time s) (frame_path s).

Definition _save_scenes_to_db (e : env) (video_id : string)
    (scenes_data : list scene) : M unit :=
  with_connection (current_timestamp e) (sqlite_fault e)
    (DeleteScenes video_id :: map (insert_scene video_id) scenes_data).

(** *** Public methods *)

Definition upload_video (self : processor) (e : env) (video_path : string)
    (video_id : option string) : M (response upload_payload) :=
  try_except
    (let video_id :=
       match video_id with Some id => id | None => generated_id e end in
     let dest_path := path_join (videos_path self) (video_id ++ ".mp4") in
     _convert_video e video_path dest_path ;;;
     info <- _get_video_info e dest_path ;;
     _save_video_to_db e video_id info ;;;
     ret (Success (UploadPayload video_id info)))
    (fun ex => ret (Failure (exn_str ex))).

Definition segment_of_whisper (s : whisper_segment) : segment :=
  Segment (w_start s) (w_end s) (Py.strip (w_text s))
    (match w_avg_logprob s with Some p => p | None => 0%float end).

Definition transcribe_video (self : processor) (e : env) (video_id : string)
    : M (response transcribe_payload) :=
  if negb (whisper_model self) then
    ret (Failure "Whisper model not available")
  else
    try_except
      (let video_path := path_join (videos_path self) (video_id ++ ".mp4") in
       audio_path <- _extract_audio e video_path ;;
       result <- lift (whisper_transcribe e) ;;
       let transcript_data := map segment_of_whisper (w_segments result) in
       _save_transcript_to_db e video_id transcript_data ;;;
       let transcript_file :=
         path_join (transcripts_path self) (video_id ++ ".json") in
       content <- lift (json_dump e) ;;
       write_file transcript_file content ;;;
       os_remove audio_path ;;;
       ret (Success (TranscribePayload transcript_data (w_full_text result))))
      (fun ex => ret (Failure (exn_str ex))).

(** The loop of [detect_scenes]: [for i, scene in enumerate(scene_list)],
    from index [i] on. *)
Fixpoint extract_scenes (self : processor) (e : env)
    (video_path video_id : string) (i : nat)
    (scene_list : list (float * float)) : M (list scene) :=
  match scene_list with
  | [] => ret []
  | (start_time, end_time) :: rest =>
      frame_path <-
        _extract_keyframe self e video_path start_time video_id i ;;
      more <- extract_scenes self e video_path video_id (S i) rest ;;
      ret (Scene i start_time end_time frame_path :: more)
  end.

Definition detect_scenes (self : processor) (e : env) (video_id : string)
    (threshold : float) : M (response detect_payload) :=
  try_except
    (let video_path := path_join (videos_path self) (video_id ++ ".mp4") in
     scene_list <- lift (scene_detect e threshold) ;;
     scenes_data <- extract_scenes self e video_path video_id 0 scene_list ;;
     _save_scenes_to_db e video_id scenes_data ;;;
     ret (Success (DetectPayload scenes_data (length scenes_data))))
    (fun ex => ret (Failure (exn_str ex))).

Definition default_threshold : float := 27%float.

Definition hit_of_row (r : transcript_row) : hit :=
  Hit (fetch_real (t_start_time r)) (fetch_real (t_end_time r)) (t_text r)
    (fetch_real (t_confidence r)).

(** The rows [search_transcript] reads: [text LIKE '%query%'].  The
    method has no [try]: what the SELECT raises leaves it. *)
Definition search_transcript (video_id query : string) : M (list hit) :=
  fun st =>
    (match select_transcripts (store st) video_id ("%" ++ query ++ "%") with
     | Ok rows => Ok (map hit_of_row rows)
     | Raise ex => Raise ex
     end,
     st).

(** [None] when [fetchone] finds no row. *)
Definition get_video_info (video_id : string) : M (option video_record) :=
  fun st =>
    (Ok (match select_video (store st) video_id with
         | Some row =>
             Some (VideoRecord video_id (v_filename row)
                     (fetch_real (v_duration row)) (fetch_real (v_fps row))
                     (v_width row) (v_height row) (v_created_at row))
         | None => None
         end),
     st).

End LocalVideoProcessor.

(** ** LocalVideoAgent

    The dispatch of [run] and its five handlers.  The texts a handler
    builds for the session are left out, except where building one can
    raise. *)

Module LocalVideoAgent.
Import LocalVideoProcessor.
Local Open Scope py_scope.

Inductive agent_status := SUCCESS | ERROR.

(** The [data] of an [AgentResponse]. *)
Inductive agent_data :=
| UploadData (r : upload_payload)
| TranscribeData (r : transcribe_payload)
| DetectData (r : detect_payload)
| SearchData (results : list hit) (query : string)
| InfoData (info : video_record)
| ErrorData (error : string).

Record agent_response := AgentResponse {
  status : agent_status;
  message : string;
  data : agent_data }.

(** The calls on [self.output_message]: [actions.append],
    [content.append], [push_update] and [publish].  The class of the
    message belongs to the session, outside these sources, and the
    specification does not speak of it: a call is taken to return
    normally and to leave the index and the files alone. *)
Definition output_message_append : M unit := ret tt.
Definition push_update : M unit := ret tt.
Definition publish : M unit := ret tt.

(** [f"{x:.2f}"]: formatting [None] with a float format raises. *)
Definition format_float (x : Py.opt_float) : M unit :=
  match x with
  | Some _ => ret tt
  | None =>
      raise (Exn TypeError
               "unsupported format string passed to NoneType.__format__")
  end.

Fixpoint format_hits (results : list hit) : M unit :=
  match results with
  | [] => ret tt
  | r :: rest => format_float (hit_start_time r) ;;; format_hits rest
  end.

Definition _handle_upload (self : processor) (e : env)
    (video_path video_id : option string) : M agent_response :=
  if Py.falsy video_path then
    raise (Exn ValueError "Video path is required for upload")
  else
    output_message_append ;;;
    push_update ;;;
    result <- upload_video self e (default "" video_path) video_id ;;
    match result with
    | Success r =>
        output_message_append ;;;
        publish ;;;
        ret (AgentResponse SUCCESS "Video uploaded successfully"
               (UploadData r))
    | Failure error => raise (Exn PlainException error)
    end.

Definition _handle_transcribe (self : processor) (e : env)
    (video_id : option string) : M agent_response :=
  if Py.falsy video_id then
    raise (Exn ValueError "Video ID is required for transcription")
  else
    output_message_append ;;;
    push_update ;;;
    result <- transcribe_video self e (default "" video_id) ;;
    match result with
    | Success r =>
        publish ;;;
        ret (AgentResponse SUCCESS "Video transcribed successfully"
               (TranscribeData r))
    | Failure error => raise (Exn PlainException error)
    end.

Definition _handle_detect_scenes (self : processor) (e : env)
    (video_id : option string) (threshold : float) : M agent_response :=
  if Py.falsy video_id then
    raise (Exn ValueError "Video ID is required for scene detection")
  else
    output_message_append ;;;
    push_update ;;;
    result <- detect_scenes self e (default "" video_id) threshold ;;
    match result with
    | Success r =>
        publish ;;;
        ret (AgentResponse SUCCESS
               ("Detected " ++ Py.str_of_nat (total_scenes r) ++ " scenes")
               (DetectData r))
    | Failure error => raise (Exn PlainException error)
    end.

(** [if not video_id: raise ...] and [if not query: raise ...] come before
    the processor is asked. *)
Definition _handle_search (self : processor) (video_id query : option string)
    : M agent_response :=
  if Py.falsy video_id then
    raise (Exn ValueError "Video ID is required for search")
  else if Py.falsy query then
    raise (Exn ValueError "Query is required for search")
  else
    let id := default "" video_id in
    let q := default "" query in
    output_message_append ;;;
    push_update ;;;
    results <- search_transcript id q ;;
    (match results with
     | [] => ret tt
     | _ :: _ => format_hits results ;;; output_message_append
     end) ;;;
    publish ;;;
    ret (AgentResponse SUCCESS
           ("Search completed, found " ++ Py.str_of_nat (length results)
              ++ " matches")
           (SearchData results q)).

Definition _handle_get_info (self : processor) (video_id : option string)
    : M agent_response :=
  if Py.falsy video_id then
    raise (Exn ValueError "Video ID is required to get info")
  else
    let id := default "" video_id in
    output_message_append ;;;
    push_update ;;;
    video_info <- get_video_info id ;;
    match video_info with
    | Some info =>
        format_float (rec_duration info) ;;;
        format_float (rec_fps info) ;;;
        publish ;;;
        ret (AgentResponse SUCCESS
               "Video information retrieved successfully" (InfoData info))
    | None => raise (Exn PlainException ("Video not found: " ++ id))
    end.

(** [run]: the note of the action, then the dispatch under [try]; what a
    handler raises becomes an ERROR response. *)
Definition run (self : processor) (e : env) (action : string)
    (video_path video_id query : option string) (threshold : float)
    : M agent_response :=
  output_message_append ;;;
  try_except
    (if String.eqb action "upload" then
       _handle_upload self e video_path video_id
     else if String.eqb action "transcribe" then
       _handle_transcribe self e video_id
     else if String.eqb action "detect_scenes" then
       _handle_detect_scenes self e video_id threshold
     else if String.eqb action "search" then
       _handle_search self video_id query
     else if String.eqb action "get_info" then
       _handle_get_info self video_id
     else raise (Exn ValueError ("Unknown action: " ++ action)))
    (fun ex =>
       output_message_append ;;;
       publish ;;;
       ret (AgentResponse ERROR
              ("Local video processing failed: " ++ exn_str ex)
              (ErrorData (exn_str ex)))).

End LocalVideoAgent.

(** ** Sample inputs

    A processor with the default storage root, an environment in which
    every tool works, and the ways the environment can fail. *)

Module Samples.
Import Sqlite LocalVideoProcessor.

Definition self0 : processor := Processor "local_video_storage" true.

Definition speech : whisper_result :=
  WhisperResult "world Hello"
    [WhisperSegment 2 3.5 " world " (Some (-0.25)%float);
     WhisperSegment 0 2 " Hello" None].

Definition two_cuts : list (float * float) := [(0, 1.5); (1.5, 5)]%float.

(** The environment, by what Whisper, the JSON dump, the detector and the
    keyframe ffmpeg do. *)
Definition env_with (whisper : result whisper_result) (dump : result blob)
    (detect : result (list (float * float))) (frame : blob) : env :=
  Env "clip_1714557600" (Ok "mp4") (VideoCapture 30 150 640 480)
    "/tmp/tmpk3v9q2.wav" (Ok "wav") whisper dump (fun _ => detect)
    (fun _ => Ok frame) "2024-05-01 10:00:00" None.

Definition env0 : env := env_with (Ok speech) (Ok "{}") (Ok two_cuts) "jpg".

(** Whisper raises on the extracted audio. *)
Definition env_whisper_fails : env :=
  env_with (Raise (Exn RuntimeError "transcription failed")) (Ok "{}")
    (Ok two_cuts) "jpg".

(** The transcript file cannot be written. *)
Definition env_dump_fails : env :=
  env_with (Ok speech) (Raise (Exn OSError "No space left on device"))
    (Ok two_cuts) "jpg".


(** The detector finds no boundary. *)
Definition env_no_cut : env := env_with (Ok speech) (Ok "{}") (Ok []) "jpg".

(** A camera that reports no frame rate. *)
Definition env_no_fps : env :=
  Env "clip_1714557600" (Ok "mp4") (VideoCapture 0 150 640 480)
    "/tmp/tmpk3v9q2.wav" (Ok "wav") (Ok speech) (Ok "{}")
    (fun _ => Ok two_cuts) (fun _ => Ok "jpg") "2024-05-01 10:00:00" None.

(** The transcoding ffmpeg fails on the input. *)
Definition env_convert_fails : env :=
  Env "clip_1714557600"
    (Raise (Exn CalledProcessError "ffmpeg returned non-zero exit status 1"))
    (VideoCapture 30 150 640 480) "/tmp/tmpk3v9q2.wav" (Ok "wav") (Ok speech)
    (Ok "{}") (fun _ => Ok two_cuts) (fun _ => Ok "jpg")
    "2024-05-01 10:00:00" None.

(** The detector cannot open the video. *)
Definition env_detect_fails : env :=
  env_with (Ok speech) (Ok "{}")
    (Raise (Exn OSError "Video file not found")) "jpg".

Definition fresh : state := State empty_database ∅.

Definition seg_a : segment := Segment 0 2 "first take" (-0.5)%float.
Definition seg_b : segment := Segment 1 4 "second take" (-0.125)%float.
Definition seg_hello : segment := Segment 0 2 "hello" 0%float.

(** The state after an upload of video "v" and a detection of two scenes. *)
Definition uploaded : state :=
  snd (upload_video self0 env0 "clips/in.avi" (Some "v") fresh).

Definition two_scenes : state :=
  snd (detect_scenes self0 env0 "v" default_threshold uploaded).

(** Transcript rows stored under an id that has no video row. *)
Definition ghost_rows : state :=
  snd (_save_transcript_to_db env0 "ghost" [seg_a] fresh).

(** One segment, "hello", stored for video "v". *)
Definition said_hello : state :=
  snd (_save_transcript_to_db env0 "v" [seg_hello] uploaded).

End Samples.

(** ** The action schema and notions for stating properties *)

Module AgentParameters.

(** [LOCAL_VIDEO_AGENT_PARAMETERS["properties"]["action"]["enum"]] *)
Definition action_enum : list string :=
  ["upload"; "transcribe"; "detect_scenes"; "search"; "get_info"].

End AgentParameters.

Module Notions.
Import Sqlite LocalVideoProcessor.

(** A string with its ASCII capitals put in lower case. *)
Definition lower (s : string) : string :=
  string_of_list_ascii (map tolower (list_ascii_of_string s)).

(** No white space at either end: no character of [str.isspace] starts
    the string or ends it. *)
Definition trimmed (s : string) : Prop :=
  forall w, w ∈ Py.whitespace ->
    ¬ w `prefix_of` list_ascii_of_string s
    ∧ ¬ w `suffix_of` list_ascii_of_string s.

(** A run of white space characters. *)
Definition all_space (l : list ascii) : Prop :=
  exists ws, Forall (fun w => w ∈ Py.whitespace) ws /\ l = concat ws.

(** [t] is [s] without the white space at its two ends. *)
Definition stripped_of (s t : string) : Prop :=
  trimmed t /\
  exists pre post,
    all_space pre /\ all_space post /\
    list_ascii_of_string s
    = (pre ++ list_ascii_of_string t ++ post)%list.

(** Containment of one run of characters in another, the characters
    being those LIKE reads and compared as LIKE compares them. *)
Fixpoint prefix_read (query text : list N) : bool :=
  match query, text with
  | [], _ => true
  | _ :: _, [] => false
  | q :: query', c :: text' => char_eq_nocase q c && prefix_read query' text'
  end.

Fixpoint contains_read (query text : list N) : bool :=
  prefix_read query text
  || match text with
     | [] => false
     | _ :: text' => contains_read query text'
     end.

(** A character with an ASCII capital put in lower case. *)
Definition lower_char (c : N) : N :=
  if (c <? 128)%N then N_of_ascii (tolower (ascii_of_N c)) else c.

(** The rowids of an AUTOINCREMENT table: increasing in the order of
    insertion, hence distinct, and none above the sequence. *)
Definition rowids_ok (ids : list Z) (seq : Z) : Prop :=
  StronglySorted Z.lt ids /\ Forall (fun i => (i <= seq)%Z) ids.

Definition index_rowids_ok (d : database) : Prop :=
  rowids_ok (map t_id (transcripts d)) (transcripts_seq d)
  /\ rowids_ok (map s_id (scenes d)) (scenes_seq d).

(** What a call may do to an AUTOINCREMENT table: the sequence does not
    go back, and a row of the new table is a row of the old one or has a
    rowid above the old sequence. *)
Definition rowids_fresh {A} (rowid : A -> Z) (old : list A) (old_seq : Z)
    (new : list A) (new_seq : Z) : Prop :=
  (old_seq <= new_seq)%Z /\
  forall r, r ∈ new -> r ∈ old \/ (old_seq < rowid r)%Z.

(** No row of the new table has the rowid of another row of the old
    one: the rowid of a deleted row is not handed out again. *)
Definition rowids_not_reused {A} (rowid : A -> Z) (old new : list A) : Prop :=
  forall r r0, r ∈ new -> r0 ∈ old -> rowid r = rowid r0 -> r = r0.

Definition index_rowids_fresh (old new : database) : Prop :=
  rowids_fresh t_id (transcripts old) (transcripts_seq old)
    (transcripts new) (transcripts_seq new)
  /\ rowids_fresh s_id (scenes old) (scenes_seq old)
       (scenes new) (scenes_seq new).

(** A name with no slash in it. *)
Definition slash_free (s : string) : bool :=
  forallb (fun c => negb (Ascii.eqb c "/")) (list_ascii_of_string s).

(** A part as [pathlib] keeps it. *)
Definition normal_part (p : string) : Prop :=
  slash_free p = true /\ p ≠ "" /\ p ≠ ".".

(** [f"{video_id}_scene_{scene_num}.jpg"] without its video id. *)
Definition frame_suffix (scene_num : nat) : string :=
  "_scene_" ++ Py.str_of_nat scene_num ++ ".jpg".

(** Whether a character is a decimal digit. *)
Definition is_digit (c : ascii) : bool :=
  let n := nat_of_ascii c in Nat.leb 48 n && Nat.leb n 57.

End Notions.

(** ** The test video of [test_local_video.py] *)

Module TestVideo.

(** The background of a frame, as the BGR tuples of [create_test_video]
    name it. *)
Inductive colour := Blue | Green | Red.

(** The colour of frame [i] of [total_frames]:
    [i < total_frames // 3], [i < 2 * total_frames // 3], else. *)
Definition frame_colour (total_frames i : nat) : colour :=
  if Nat.ltb i (total_frames / 3) then Blue
  else if Nat.ltb i (2 * total_frames / 3) then Green
  else Red.

End TestVideo.

(** ** More sample inputs *)

Module MoreSamples.
Import Sqlite LocalVideoProcessor Samples.


(** Whisper returns text with white space around it. *)
Definition padded_speech : whisper_result :=
  WhisperResult " so it goes "
    [WhisperSegment 0 1 "  so it  " (Some (-0.5)%float);
     WhisperSegment 1 2 "   " None].

Definition env_padded : env :=
  env_with (Ok padded_speech) (Ok "{}") (Ok two_cuts) "jpg".


End MoreSamples.

(** * Properties *)

(** ** The order of a REAL column *)

Module RealOrder.
Import Sqlite.

Ltac split_compare :=
  repeat match goal with
    | H : context [Z.compare ?a ?b] |- _ =>
        destruct (Z.compare_spec a b); simpl in H
    | |- context [Z.compare ?a ?b] =>
        destruct (Z.compare_spec a b); simpl
    | H : context [Pos.compare_cont Eq ?a ?b] |- _ =>
        change (Pos.compare_cont Eq a b) with (Pos.compare a b) in H;
        destruct (Pos.compare_spec a b); simpl in H
    | |- context [Pos.compare_cont Eq ?a ?b] =>
        change (Pos.compare_cont Eq a b) with (Pos.compare a b);
        destruct (Pos.compare_spec a b); simpl
    end.

Lemma sf_le_total (x y : spec_float) : sf_le x y = true \/ sf_le y x = true.
Proof.
  destruct x as [[]|[]| |[] mx ex], y as [[]|[]| |[] my ey];
    cbn; auto; unfold SFleb, SFcompare;
    split_compare; auto; lia.
Qed.

Lemma sf_le_trans (x y z : spec_float) :
  sf_le x y = true -> sf_le y z = true -> sf_le x z = true.
Proof.
  destruct x as [[]|[]| |[] mx ex], y as [[]|[]| |[] my ey],
    z as [[]|[]| |[] mz ez];
    cbn; auto; try discriminate; unfold SFleb, SFcompare;
    intros Hxy Hyz; split_compare;
    try discriminate; try reflexivity; lia.
Qed.

Lemma is_null_spec (x : float) :
  is_null x = match Prim2SF x with S754_nan => true | _ => false end.
Proof.
  unfold is_null, PrimFloat.is_nan. rewrite FloatAxioms.eqb_spec.
  destruct (Prim2SF x) as [[]|[]| |[] m e]; cbn; try reflexivity;
    rewrite Z.compare_refl, Pos.compare_cont_refl; reflexivity.
Qed.

Lemma real_leb_spec (a b : float) :
  real_leb a b = sf_le (Prim2SF a) (Prim2SF b).
Proof.
  unfold real_leb. rewrite !is_null_spec, FloatAxioms.leb_spec.
  destruct (Prim2SF a) as [[]|[]| |[] ma ea], (Prim2SF b) as [[]|[]| |[] mb eb];
    reflexivity.
Qed.

Lemma real_leb_total (a b : float) :
  real_leb a b = true \/ real_leb b a = true.
Proof. rewrite !real_leb_spec. apply sf_le_total. Qed.

Lemma real_leb_trans (a b c : float) :
  real_leb a b = true -> real_leb b c = true -> real_leb a c = true.
Proof. rewrite !real_leb_spec. apply sf_le_trans. Qed.

End RealOrder.

(** ** Transactions *)

Module SqliteFacts.
Import Sqlite.

(** No statement touches the database file: other connections read the
    old rows until the commit. *)
Lemma execute_db_file now s c : db_file (execute now s c) = db_file c.
Proof. reflexivity. Qed.

Lemma run_stmts_spec now fault ss c :
  run_stmts now fault ss c =
    if fault_hits fault (length ss)
    then (Raise sqlite_error,
          Connection (db_file c)
            (exec_all now (firstn (default 0 fault) ss) (txn c)))
    else (Ok tt, commit (Connection (db_file c) (exec_all now ss (txn c)))).
Proof.
  revert fault c. induction ss as [|s ss IH]; intros fault c.
  - destruct fault as [[|k]|]; destruct c; reflexivity.
  - destruct fault as [[|k]|]; simpl.
    + destruct c; reflexivity.
    + rewrite IH. simpl. reflexivity.
    + rewrite IH. simpl. reflexivity.
Qed.

Lemma transaction_spec now fault ss d :
  transaction now fault ss d =
    if fault_hits fault (length ss)
    then (Raise sqlite_error, d)
    else (Ok tt, exec_all now ss d).
Proof.
  unfold transaction. rewrite run_stmts_spec.
  destruct (fault_hits fault (length ss)); reflexivity.
Qed.

(** All or nothing: a transaction that raises leaves the file as it was. *)
Lemma transaction_raise now fault ss d e d' :
  transaction now fault ss d = (Raise e, d') -> d' = d.
Proof.
  rewrite transaction_spec.
  destruct (fault_hits fault (length ss)); congruence.
Qed.

(** Until the commit, whatever prefix of the statements has run, the file
    is the old one. *)
Lemma uncommitted_invisible now ss d k :
  db_file (fold_left (fun c s => execute now s c) (firstn k ss) (connect d))
  = d.
Proof.
  generalize (connect d) (eq_refl : db_file (connect d) = d).
  generalize (firstn k ss) as l.
  induction l as [|s l IH]; intros c Hc; simpl; [exact Hc|].
  apply IH. rewrite execute_db_file. exact Hc.
Qed.

End SqliteFacts.

(** ** The rows a replace leaves *)

Module StoreFacts.
Import Sqlite SqliteFacts LocalVideoProcessor.

Lemma exec_all_insert_segments now video_id (segs : list segment) d :
  exec_all now (map (insert_segment video_id) segs) d =
    Database (videos d)
      (transcripts d
         ++ transcript_rows (transcripts_seq d)
              (map (insert_segment video_id) segs))
      (transcripts_seq d + Z.of_nat (length segs))
      (scenes d) (scenes_seq d).
Proof.
  revert d. induction segs as [|s segs IH]; intros d.
  - destruct d; simpl. rewrite app_nil_r, Z.add_0_r. reflexivity.
  - change (exec_all now (map (insert_segment video_id) (s :: segs)) d)
      with (exec_all now (map (insert_segment video_id) segs)
              (exec now (insert_segment video_id s) d)).
    rewrite IH. simpl. rewrite <- app_assoc. simpl.
    f_equal. lia.
Qed.

Lemma exec_all_insert_scenes now video_id (scs : list scene) d :
  exec_all now (map (insert_scene video_id) scs) d =
    Database (videos d) (transcripts d) (transcripts_seq d)
      (scenes d
         ++ scene_rows (scenes_seq d) (map (insert_scene video_id) scs))
      (scenes_seq d + Z.of_nat (length scs)).
Proof.
  revert d. induction scs as [|s scs IH]; intros d.
  - destruct d; simpl. rewrite app_nil_r, Z.add_0_r. reflexivity.
  - change (exec_all now (map (insert_scene video_id) (s :: scs)) d)
      with (exec_all now (map (insert_scene video_id) scs)
              (exec now (insert_scene video_id s) d)).
    rewrite IH. simpl. rewrite <- app_assoc. simpl.
    f_equal. lia.
Qed.

Lemma transcript_rows_video_id seq video_id (segs : list segment) :
  Forall (fun r => t_video_id r = video_id)
    (transcript_rows seq (map (insert_segment video_id) segs)).
Proof.
  revert seq. induction segs as [|s segs IH]; intros seq; simpl;
    constructor; auto.
Qed.

Lemma scene_rows_video_id seq video_id (scs : list scene) :
  Forall (fun r => s_video_id r = video_id)
    (scene_rows seq (map (insert_scene video_id) scs)).
Proof.
  revert seq. induction scs as [|s scs IH]; intros seq; simpl;
    constructor; auto.
Qed.

Lemma transcript_rows_segments seq video_id (segs : list segment) :
  map segment_of_row
    (transcript_rows seq (map (insert_segment video_id) segs)) = segs.
Proof.
  revert seq. induction segs as [|[] segs IH]; intros seq; simpl;
    [reflexivity|]. rewrite IH. reflexivity.
Qed.

Lemma scene_rows_scenes seq video_id (scs : list scene) :
  map scene_of_row (scene_rows seq (map (insert_scene video_id) scs)) = scs.
Proof.
  revert seq. induction scs as [|[] scs IH]; intros seq; simpl;
    [reflexivity|]. rewrite IH. unfold scene_of_row. simpl.
  rewrite Nat2Z.id. reflexivity.
Qed.

Lemma filter_all {A} (P : A -> Prop) `{forall x, Decision (P x)} (l : list A) :
  Forall P l -> filter P l = l.
Proof.
  induction 1 as [|x l Hx Hl IH]; [reflexivity|].
  rewrite filter_cons_True by exact Hx. rewrite IH. reflexivity.
Qed.

Lemma filter_none {A} (P : A -> Prop) `{forall x, Decision (P x)} (l : list A) :
  Forall (fun x => ~ P x) l -> filter P l = [].
Proof.
  induction 1 as [|x l Hx Hl IH]; [reflexivity|].
  rewrite filter_cons_False by exact Hx. exact IH.
Qed.

Lemma filter_other_then_same {A B} `{EqDecision B} (f : A -> B) (b : B)
    (l : list A) :
  filter (fun x => f x = b) (filter (fun x => f x ≠ b) l) = [].
Proof.
  apply filter_none. apply Forall_forall. intros x Hx.
  apply list_elem_of_filter in Hx. tauto.
Qed.

(** What a committed replace leaves under the video id: the new rows and
    nothing else. *)
Lemma replace_transcripts_of now video_id (segs : list segment) d :
  transcripts_of
    (exec_all now (DeleteTranscripts video_id
                     :: map (insert_segment video_id) segs) d) video_id
  = transcript_rows (transcripts_seq d) (map (insert_segment video_id) segs).
Proof.
  change (exec_all now (DeleteTranscripts video_id
                          :: map (insert_segment video_id) segs) d)
    with (exec_all now (map (insert_segment video_id) segs)
            (exec now (DeleteTranscripts video_id) d)).
  rewrite exec_all_insert_segments. unfold transcripts_of. simpl.
  rewrite filter_app, filter_other_then_same. simpl.
  apply filter_all, transcript_rows_video_id.
Qed.

Lemma replace_scenes_of now video_id (scs : list scene) d :
  scenes_of
    (exec_all now (DeleteScenes video_id :: map (insert_scene video_id) scs) d)
    video_id
  = scene_rows (scenes_seq d) (map (insert_scene video_id) scs).
Proof.
  change (exec_all now (DeleteScenes video_id
                          :: map (insert_scene video_id) scs) d)
    with (exec_all now (map (insert_scene video_id) scs)
            (exec now (DeleteScenes video_id) d)).
  rewrite exec_all_insert_scenes. unfold scenes_of. simpl.
  rewrite filter_app, filter_other_then_same. simpl.
  apply filter_all, scene_rows_video_id.
Qed.

Lemma filter_other_all (video_id : string) (l : list transcript_row) :
  filter (fun r => t_video_id r = video_id) l = [] ->
  filter (fun r => t_video_id r ≠ video_id) l = l.
Proof.
  intros H. apply filter_all. apply Forall_forall. intros r Hr Heq.
  assert (Hin : r ∈ filter (fun r => t_video_id r = video_id) l)
    by (apply list_elem_of_filter; auto).
  rewrite H in Hin. inversion Hin.
Qed.

End StoreFacts.

(** ** The methods that write the index *)

Module ProcessorFacts.
Import Sqlite SqliteFacts StoreFacts LocalVideoProcessor.

Lemma with_connection_spec now fault ss st :
  with_connection now fault ss st =
    if fault_hits fault (length ss)
    then (Raise sqlite_error, st)
    else (Ok tt, State (exec_all now ss (store st)) (files st)).
Proof.
  unfold with_connection. rewrite transaction_spec.
  destruct (fault_hits fault (length ss)); destruct st; reflexivity.
Qed.

Lemma save_transcript_spec e video_id (segs : list segment) st :
  _save_transcript_to_db e video_id segs st =
    if fault_hits (sqlite_fault e) (S (length segs))
    then (Raise sqlite_error, st)
    else (Ok tt,
          State
            (exec_all (current_timestamp e)
               (DeleteTranscripts video_id
                  :: map (insert_segment video_id) segs) (store st))
            (files st)).
Proof.
  unfold _save_transcript_to_db. rewrite with_connection_spec.
  simpl length. rewrite length_map. reflexivity.
Qed.

Lemma save_scenes_spec e video_id (scs : list scene) st :
  _save_scenes_to_db e video_id scs st =
    if fault_hits (sqlite_fault e) (S (length scs))
    then (Raise sqlite_error, st)
    else (Ok tt,
          State
            (exec_all (current_timestamp e)
               (DeleteScenes video_id :: map (insert_scene video_id) scs)
               (store st))
            (files st)).
Proof.
  unfold _save_scenes_to_db. rewrite with_connection_spec.
  simpl length. rewrite length_map. reflexivity.
Qed.

(** A replace touches the transcript rows of its video id only. *)
Lemma replace_transcripts now video_id (segs : list segment) d :
  exec_all now (DeleteTranscripts video_id
                  :: map (insert_segment video_id) segs) d =
    Database (videos d)
      (filter (fun r => t_video_id r ≠ video_id) (transcripts d)
         ++ transcript_rows (transcripts_seq d)
              (map (insert_segment video_id) segs))
      (transcripts_seq d + Z.of_nat (length segs))
      (scenes d) (scenes_seq d).
Proof.
  change (exec_all now (DeleteTranscripts video_id
                          :: map (insert_segment video_id) segs) d)
    with (exec_all now (map (insert_segment video_id) segs)
            (exec now (DeleteTranscripts video_id) d)).
  rewrite exec_all_insert_segments. reflexivity.
Qed.

(** [search_transcript] reads the rows of its video id and no others. *)
Lemma select_transcripts_of d video_id pattern :
  select_transcripts d video_id pattern =
    match transcripts_of d video_id with
    | [] => Ok []
    | _ :: _ =>
        if like_pattern_ok pattern
        then Ok (order_by_start_time
                   (filter (fun r => like (t_text r) pattern = true)
                      (transcripts_of d video_id)))
        else Raise pattern_too_complex
    end.
Proof. reflexivity. Qed.

Lemma select_transcripts_ok d video_id pattern :
  like_pattern_ok pattern = true ->
  select_transcripts d video_id pattern =
    Ok (order_by_start_time
          (filter (fun r => like (t_text r) pattern = true)
             (transcripts_of d video_id))).
Proof.
  intros Hok. rewrite select_transcripts_of, Hok.
  destruct (transcripts_of d video_id); reflexivity.
Qed.

(** With a pattern within the limit, the search returns the matching rows
    of the video in the order of [start_time]. *)
Lemma search_transcript_ok video_id query st :
  like_pattern_ok ("%" ++ query ++ "%") = true ->
  search_transcript video_id query st =
    (Ok (map hit_of_row
           (order_by_start_time
              (filter (fun r => like (t_text r) ("%" ++ query ++ "%") = true)
                 (transcripts_of (store st) video_id)))), st).
Proof.
  intros Hok. unfold search_transcript.
  rewrite select_transcripts_ok by exact Hok. reflexivity.
Qed.

(** Every way [search_transcript] returns: it raises exactly when the
    pattern is over the limit and a row of the video meets it. *)
Lemma search_transcript_spec video_id query st :
  search_transcript video_id query st =
    (if like_pattern_ok ("%" ++ query ++ "%")
        || bool_decide (transcripts_of (store st) video_id = [])
     then Ok (map hit_of_row
                (order_by_start_time
                   (filter
                      (fun r => like (t_text r) ("%" ++ query ++ "%") = true)
                      (transcripts_of (store st) video_id))))
     else Raise pattern_too_complex,
     st).
Proof.
  unfold search_transcript. rewrite select_transcripts_of.
  destruct (transcripts_of (store st) video_id) as [|r rows];
    [rewrite orb_true_r; reflexivity|].
  rewrite bool_decide_eq_false_2 by discriminate. rewrite orb_false_r.
  destruct (like_pattern_ok _); reflexivity.
Qed.

(** With no row under the video id, LIKE is not evaluated at all. *)
Lemma search_transcript_no_rows video_id query st :
  transcripts_of (store st) video_id = [] ->
  search_transcript video_id query st = (Ok [], st).
Proof.
  intros Hrows. unfold search_transcript.
  rewrite select_transcripts_of, Hrows. reflexivity.
Qed.

End ProcessorFacts.

(** ** Strings *)

Module StringFacts.

Lemma list_ascii_of_string_app (s1 s2 : string) :
  list_ascii_of_string (s1 ++ s2)
  = (list_ascii_of_string s1 ++ list_ascii_of_string s2)%list.
Proof.
  induction s1 as [|c s1 IH]; simpl; [reflexivity|]. rewrite IH. reflexivity.
Qed.

Lemma list_ascii_of_string_inj (s1 s2 : string) :
  list_ascii_of_string s1 = list_ascii_of_string s2 -> s1 = s2.
Proof.
  intros H. rewrite <- (string_of_list_ascii_of_string s1),
    <- (string_of_list_ascii_of_string s2), H. reflexivity.
Qed.

Lemma string_app_inv_suffix (s1 s2 suffix : string) :
  s1 ++ suffix = s2 ++ suffix -> s1 = s2.
Proof.
  intros H. apply list_ascii_of_string_inj.
  apply (f_equal list_ascii_of_string) in H.
  rewrite !list_ascii_of_string_app in H.
  exact (app_inv_tail _ _ _ H).
Qed.

End StringFacts.

(** ** Paths *)

Module PathlibFacts.
Import LocalVideoProcessor Notions StringFacts.

Lemma split_slash_not_nil s : split_slash s ≠ [].
Proof.
  induction s as [|c s IH]; simpl; [discriminate|].
  destruct (Ascii.eqb c "/"); [discriminate|].
  destruct (split_slash s); discriminate.
Qed.

Lemma slash_free_cons c s :
  slash_free (String c s) = negb (Ascii.eqb c "/") && slash_free s.
Proof. reflexivity. Qed.

Lemma split_slash_parts_slash_free s :
  Forall (fun p => slash_free p = true) (split_slash s).
Proof.
  induction s as [|c s IH]; simpl; [repeat constructor|].
  destruct (Ascii.eqb c "/") eqn:Hc; [constructor; [reflexivity | exact IH]|].
  destruct (split_slash s) as [|p ps].
  - repeat constructor. rewrite slash_free_cons, Hc. reflexivity.
  - apply Forall_cons in IH as [Hp Hps]. constructor; [|exact Hps].
    rewrite slash_free_cons, Hc, Hp. reflexivity.
Qed.

Lemma split_slash_slash_free s : slash_free s = true -> split_slash s = [s].
Proof.
  induction s as [|c s IH]; [reflexivity|].
  rewrite slash_free_cons. intros [Hc Hs]%andb_true_iff.
  apply negb_true_iff in Hc. simpl. rewrite Hc, IH by exact Hs. reflexivity.
Qed.

(** Appending a name without a slash extends the last component. *)
Lemma split_slash_app s t :
  slash_free t = true ->
  exists init p,
    split_slash s = (init ++ [p])%list /\
    split_slash (s ++ t) = (init ++ [(p ++ t)%string])%list.
Proof.
  intros Ht. induction s as [|c s (init & p & Hs & Hst)].
  - exists [], "". split; [reflexivity|]. apply split_slash_slash_free, Ht.
  - change (String c s ++ t) with (String c (s ++ t)). simpl.
    rewrite Hs, Hst. destruct (Ascii.eqb c "/").
    + exists ("" :: init), p. split; reflexivity.
    + destruct init as [|p0 init]; simpl.
      * exists [], (String c p). split; reflexivity.
      * exists (String c p0 :: init), p. split; reflexivity.
Qed.

Lemma split_slash_app_slash p rest :
  slash_free p = true ->
  split_slash (p ++ "/" ++ rest) = p :: split_slash rest.
Proof.
  induction p as [|c p IH]; [reflexivity|].
  rewrite slash_free_cons. intros [Hc Hp]%andb_true_iff.
  apply negb_true_iff in Hc.
  change (String c p ++ "/" ++ rest) with (String c (p ++ "/" ++ rest)).
  simpl. rewrite Hc, IH by exact Hp. reflexivity.
Qed.

Lemma split_slash_join ps :
  ps ≠ [] -> Forall (fun p => slash_free p = true) ps ->
  split_slash (join_slash ps) = ps.
Proof.
  induction ps as [|p ps IH]; [congruence|]. intros _ Hps.
  apply Forall_cons in Hps as [Hp Hps]. destruct ps as [|p' ps].
  - apply split_slash_slash_free, Hp.
  - change (join_slash (p :: p' :: ps))
      with (p ++ "/" ++ join_slash (p' :: ps)).
    rewrite split_slash_app_slash by exact Hp.
    rewrite IH; [reflexivity | discriminate | exact Hps].
Qed.

Lemma path_parts_normal s : Forall normal_part (path_parts s).
Proof.
  unfold path_parts. apply Forall_forall. intros p Hp.
  apply list_elem_of_filter in Hp as [[Hne Hdot] Hin].
  pose proof (split_slash_parts_slash_free s) as Hfree.
  rewrite Forall_forall in Hfree. split; [apply Hfree, Hin | auto].
Qed.

Lemma filter_normal ps :
  Forall normal_part ps -> filter (fun p => p ≠ "" ∧ p ≠ ".") ps = ps.
Proof.
  intros H. apply StoreFacts.filter_all.
  eapply Forall_impl; [exact H|]. intros p (_ & Hne & Hdot). auto.
Qed.

Lemma path_root_cases s :
  path_root s = "" \/ path_root s = "/" \/ path_root s = "//".
Proof.
  destruct s as [|c1 [|c2 [|c3 s]]]; cbn; auto;
    repeat (case_match; auto).
Qed.

(** Parsing what [str] printed gives the parts back. *)
Lemma path_parts_str root ps :
  root = "" \/ root = "/" \/ root = "//" ->
  Forall normal_part ps ->
  path_parts (path_str root ps) = ps.
Proof.
  intros Hroot Hps.
  assert (Hfree : Forall (fun p => slash_free p = true) ps).
  { eapply Forall_impl; [exact Hps|]. intros p Hp. apply Hp. }
  destruct ps as [|p ps].
  - destruct Hroot as [->|[->| ->]]; reflexivity.
  - assert (Hsplit : split_slash (join_slash (p :: ps)) = p :: ps)
      by (apply split_slash_join; [discriminate | exact Hfree]).
    unfold path_parts.
    destruct Hroot as [->|[->| ->]]; unfold path_str.
    + change ("" ++ join_slash (p :: ps)) with (join_slash (p :: ps)).
      rewrite Hsplit. apply filter_normal, Hps.
    + change ("/" ++ join_slash (p :: ps))
        with (String "/" (join_slash (p :: ps))).
      cbn [split_slash Ascii.eqb Bool.eqb]. rewrite Hsplit.
      rewrite filter_cons_False by (intros [H _]; apply H; reflexivity).
      apply filter_normal, Hps.
    + change ("//" ++ join_slash (p :: ps))
        with (String "/" (String "/" (join_slash (p :: ps)))).
      cbn [split_slash Ascii.eqb Bool.eqb]. rewrite Hsplit.
      rewrite !filter_cons_False by (intros [H _]; apply H; reflexivity).
      apply filter_normal, Hps.
Qed.

Lemma path_parts_join dir name :
  path_parts (path_join dir name) =
    if decide (path_root name = "")
    then (path_parts dir ++ path_parts name)%list
    else path_parts name.
Proof.
  unfold path_join.
  destruct (path_root_cases name) as [Hr|[Hr|Hr]]; rewrite Hr.
  - rewrite decide_True by reflexivity.
    apply path_parts_str; [apply path_root_cases|].
    apply Forall_app. split; apply path_parts_normal.
  - rewrite decide_False by discriminate.
    apply path_parts_str; [auto | apply path_parts_normal].
  - rewrite decide_False by discriminate.
    apply path_parts_str; [auto | apply path_parts_normal].
Qed.

(** The name of a joined path is the last part of what was joined on. *)
Lemma path_name_join dir name p :
  last (path_parts name) = Some p -> path_name (path_join dir name) = p.
Proof.
  intros Hlast. unfold path_name. rewrite path_parts_join.
  case_decide; [rewrite last_app|]; rewrite Hlast; reflexivity.
Qed.

Lemma not_dot_app p a b t :
  p ++ String a (String b t) ≠ "" /\ p ++ String a (String b t) ≠ ".".
Proof.
  destruct p as [|c [|c' p]]; split; discriminate.
Qed.

(** The last part of a name that ends in at least two characters that are
    not slashes. *)
Lemma path_parts_last s a b t :
  slash_free (String a (String b t)) = true ->
  exists p,
    last (split_slash s) = Some p /\
    slash_free p = true /\
    last (path_parts (s ++ String a (String b t)))
    = Some (p ++ String a (String b t)).
Proof.
  intros Ht. destruct (split_slash_app s _ Ht) as (init & p & Hs & Hst).
  exists p. split; [rewrite Hs; apply last_snoc|]. split.
  - pose proof (split_slash_parts_slash_free s) as Hfree.
    rewrite Hs in Hfree. apply Forall_app in Hfree as [_ Hp].
    apply Forall_cons in Hp as [Hp _]. exact Hp.
  - unfold path_parts. rewrite Hst, filter_app.
    rewrite filter_cons_True by apply not_dot_app.
    rewrite filter_nil. apply last_snoc.
Qed.

(** A name without a slash is one component. *)
Lemma path_parts_last_slash_free s a b t :
  slash_free s = true ->
  slash_free (String a (String b t)) = true ->
  last (path_parts (s ++ String a (String b t)))
  = Some (s ++ String a (String b t)).
Proof.
  intros Hs Ht. destruct (path_parts_last s a b t Ht) as (p & Hp & _ & Hlast).
  rewrite split_slash_slash_free in Hp by exact Hs. injection Hp as <-.
  exact Hlast.
Qed.

End PathlibFacts.

(** ** The keyframe files *)

Module KeyframeFacts.
Import LocalVideoProcessor Notions StringFacts PathlibFacts.

Lemma pretty_N_char_digit x : is_digit (pretty_N_char x) = true.
Proof. unfold pretty_N_char. repeat case_match; reflexivity. Qed.

Lemma pretty_N_go_digits x s :
  Forall (fun c => is_digit c = true) (list_ascii_of_string s) ->
  Forall (fun c => is_digit c = true) (list_ascii_of_string (pretty_N_go x s)).
Proof.
  revert s. induction (N.lt_wf_0 x) as [x _ IH]. intros s Hs.
  destruct (decide (0 < x)%N) as [Hpos|Hzero].
  - rewrite pretty_N_go_step by exact Hpos. apply IH.
    + apply N.div_lt; [exact Hpos | reflexivity].
    + cbn [list_ascii_of_string]. constructor;
        [apply pretty_N_char_digit | exact Hs].
  - assert (x = 0%N) as -> by lia. rewrite pretty_N_go_0. exact Hs.
Qed.

Lemma str_of_nat_digits n :
  Forall (fun c => is_digit c = true)
    (list_ascii_of_string (Py.str_of_nat n)).
Proof.
  unfold Py.str_of_nat, pretty, pretty_nat, pretty, pretty_N.
  case_decide.
  - repeat constructor.
  - apply pretty_N_go_digits. constructor.
Qed.

Lemma slash_free_app (s1 s2 : string) :
  slash_free s1 = true -> slash_free s2 = true -> slash_free (s1 ++ s2) = true.
Proof.
  unfold slash_free. rewrite list_ascii_of_string_app, forallb_app.
  intros -> ->. reflexivity.
Qed.

Lemma str_of_nat_slash_free n : slash_free (Py.str_of_nat n) = true.
Proof.
  unfold slash_free. apply forallb_forall. intros c Hc.
  pose proof (str_of_nat_digits n) as Hd. rewrite Forall_forall in Hd.
  specialize (Hd c ltac:(apply list_elem_of_In; exact Hc)).
  destruct (Ascii.eqb_spec c "/") as [->|_]; [discriminate Hd | reflexivity].
Qed.

Lemma frame_suffix_slash_free n : slash_free (frame_suffix n) = true.
Proof.
  unfold frame_suffix. apply slash_free_app; [reflexivity|].
  apply slash_free_app; [apply str_of_nat_slash_free | reflexivity].
Qed.

(** The name of a keyframe file: what follows the last slash of the video
    id, then the scene number. *)
Lemma keyframe_path_name self video_id n :
  exists p,
    last (split_slash video_id) = Some p /\
    path_name (keyframe_path self video_id n) = p ++ frame_suffix n.
Proof.
  pose proof (frame_suffix_slash_free n) as Hfree.
  unfold keyframe_path. fold (frame_suffix n).
  change (frame_suffix n)
    with (String "_" (String "s" ("cene_" ++ Py.str_of_nat n ++ ".jpg")))
    in Hfree |- *.
  destruct (path_parts_last video_id _ _ _ Hfree) as (p & Hp & _ & Hlast).
  exists p. split; [exact Hp|]. apply path_name_join, Hlast.
Qed.

(** For an id without a slash the name is the whole file name of the
    scheme. *)
Lemma keyframe_path_name_slash_free self video_id n :
  slash_free video_id = true ->
  path_name (keyframe_path self video_id n) = video_id ++ frame_suffix n.
Proof.
  intros Hid. destruct (keyframe_path_name self video_id n) as (p & Hp & ->).
  rewrite split_slash_slash_free in Hp by exact Hid. injection Hp as <-.
  reflexivity.
Qed.

Lemma frame_suffix_inj i j : frame_suffix i = frame_suffix j -> i = j.
Proof.
  unfold frame_suffix, Py.str_of_nat. intros H.
  apply String.app_inj in H. apply string_app_inv_suffix in H.
  exact (pretty_nat_inj _ _ H).
Qed.

(** Two scene numbers of a video never share a keyframe file. *)
Lemma keyframe_path_inj self video_id (i j : nat) :
  keyframe_path self video_id i = keyframe_path self video_id j -> i = j.
Proof.
  intros H. apply (f_equal path_name) in H.
  destruct (keyframe_path_name self video_id i) as (p & Hp & Hi).
  destruct (keyframe_path_name self video_id j) as (p' & Hp' & Hj).
  rewrite Hi, Hj in H. rewrite Hp in Hp'. injection Hp' as <-.
  apply String.app_inj in H. apply frame_suffix_inj, H.
Qed.





End KeyframeFacts.

(** ** Scene detection *)

Module SceneFacts.
Import Sqlite SqliteFacts StoreFacts LocalVideoProcessor ProcessorFacts.
Import StringFacts KeyframeFacts.

Lemma extract_keyframe_spec self e video_path timestamp video_id i st :
  _extract_keyframe self e video_path timestamp video_id i st =
    match ffmpeg_keyframe e i with
    | Ok content =>
        (Ok (keyframe_path self video_id i),
         State (store st)
           (<[keyframe_path self video_id i := content]> (files st)))
    | Raise ex => (Raise ex, st)
    end.
Proof.
  unfold _extract_keyframe, bind, lift, write_file, ret.
  destruct (ffmpeg_keyframe e i); reflexivity.
Qed.

(** The loop writes keyframe files and nothing else: the index is not
    touched. *)
Lemma extract_scenes_store self e video_path video_id i scene_list st :
  store (snd (extract_scenes self e video_path video_id i scene_list st))
  = store st.
Proof.
  revert i st. induction scene_list as [|[t0 t1] l IH]; intros i st;
    [reflexivity|].
  cbn [extract_scenes]. unfold bind at 1. rewrite extract_keyframe_spec.
  destruct (ffmpeg_keyframe e i) as [content|ex]; [|reflexivity].
  unfold bind at 1.
  specialize (IH (S i)
    (State (store st) (<[keyframe_path self video_id i := content]> (files st)))).
  destruct (extract_scenes self e video_path video_id (S i) l _)
    as [[more|ex] st1]; unfold ret; exact IH.
Qed.

(** A file that is not a keyframe of the scenes being extracted is left
    as it is, whether the loop ends or raises. *)
Lemma extract_scenes_other_files self e video_path video_id i scene_list st
    path :
  (forall j, i <= j < i + length scene_list ->
             keyframe_path self video_id j ≠ path) ->
  files (snd (extract_scenes self e video_path video_id i scene_list st))
    !! path
  = files st !! path.
Proof.
  revert i st. induction scene_list as [|[t0 t1] l IH]; intros i st Hpath;
    [reflexivity|].
  cbn [extract_scenes]. unfold bind at 1. rewrite extract_keyframe_spec.
  destruct (ffmpeg_keyframe e i) as [content|ex]; [|reflexivity].
  unfold bind at 1.
  specialize (IH (S i)
    (State (store st) (<[keyframe_path self video_id i := content]> (files st)))).
  destruct (extract_scenes self e video_path video_id (S i) l _)
    as [[more|ex] st1]; unfold ret; cbn [snd files] in *.
  - rewrite IH.
    + apply lookup_insert_ne. apply Hpath. simpl. lia.
    + intros j Hj. apply Hpath. simpl. lia.
  - rewrite IH.
    + apply lookup_insert_ne. apply Hpath. simpl. lia.
    + intros j Hj. apply Hpath. simpl. lia.
Qed.

(** When the loop ends, it has built one scene per boundary pair, in
    order, and the keyframe of each is on disk as ffmpeg wrote it. *)
Lemma extract_scenes_ok self e video_path video_id i scene_list st scs st' :
  extract_scenes self e video_path video_id i scene_list st = (Ok scs, st') ->
  scs = scenes_at self video_id i scene_list /\
  forall j, i <= j < i + length scene_list ->
    exists content,
      ffmpeg_keyframe e j = Ok content /\
      files st' !! keyframe_path self video_id j = Some content.
Proof.
  revert i st scs st'.
  induction scene_list as [|[t0 t1] l IH]; intros i st scs st' H.
  - injection H as <- <-. split; [reflexivity|]. simpl. intros j Hj. lia.
  - cbn [extract_scenes] in H. unfold bind at 1 in H.
    rewrite extract_keyframe_spec in H.
    destruct (ffmpeg_keyframe e i) as [content|ex] eqn:Hi; [|discriminate].
    unfold bind at 1 in H.
    destruct (extract_scenes self e video_path video_id (S i) l _)
      as [[more|ex] st1] eqn:Hrest; [|discriminate].
    unfold ret in H. injection H as <- <-.
    destruct (IH _ _ _ _ Hrest) as [-> Hfiles].
    split; [reflexivity|]. intros j Hj.
    destruct (decide (j = i)) as [->|Hne].
    + exists content. split; [exact Hi|].
      pose proof (extract_scenes_other_files self e video_path video_id (S i)
                    l (State (store st)
                         (<[keyframe_path self video_id i := content]>
                            (files st)))
                    (keyframe_path self video_id i)) as Hother.
      rewrite Hrest in Hother. cbn [snd files] in Hother.
      rewrite Hother; [apply lookup_insert_eq|].
      intros k Hk Heq. apply keyframe_path_inj in Heq. lia.
    + apply Hfiles. simpl in Hj. lia.
Qed.

Lemma scenes_at_length self video_id i scene_list :
  length (scenes_at self video_id i scene_list) = length scene_list.
Proof.
  revert i. induction scene_list as [|[t0 t1] l IH]; intros i; simpl;
    [reflexivity|]. rewrite IH. reflexivity.
Qed.



(** The three ways [detect_scenes] returns; it never raises. *)
Lemma detect_scenes_spec self e video_id threshold st :
  detect_scenes self e video_id threshold st =
    match scene_detect e threshold with
    | Raise ex => (Ok (Failure (exn_str ex)), st)
    | Ok scene_list =>
        match extract_scenes self e
                (path_join (videos_path self) (video_id ++ ".mp4"))
                video_id 0 scene_list st with
        | (Raise ex, st1) => (Ok (Failure (exn_str ex)), st1)
        | (Ok scs, st1) =>
            if fault_hits (sqlite_fault e) (S (length scs))
            then (Ok (Failure (exn_str sqlite_error)), st1)
            else
              (Ok (Success (DetectPayload scs (length scs))),
               State
                 (exec_all (current_timestamp e)
                    (DeleteScenes video_id
                       :: map (insert_scene video_id) scs) (store st1))
                 (files st1))
        end
    end.
Proof.
  unfold detect_scenes, try_except. unfold bind at 1. unfold lift.
  destruct (scene_detect e threshold) as [scene_list|ex]; [|reflexivity].
  unfold bind at 1.
  destruct (extract_scenes self e _ video_id 0 scene_list st)
    as [[scs|ex] st1]; [|reflexivity].
  unfold bind at 1. rewrite save_scenes_spec.
  destruct (fault_hits (sqlite_fault e) (S (length scs))); reflexivity.
Qed.

End SceneFacts.

(** ** Upload and transcription *)

Module StageFacts.
Import Sqlite SqliteFacts StoreFacts LocalVideoProcessor ProcessorFacts.
Import SceneFacts.

Lemma get_video_info_ok e video_path st :
  exists info, _get_video_info e video_path st = (Ok info, st).
Proof.
  unfold _get_video_info, bind, lift, ret, Py.truediv.
  destruct (PrimFloat.ltb 0 (CAP_PROP_FPS (cv2_capture e))) eqn:Hlt;
    [|eexists; reflexivity].
  assert (Hz : PrimFloat.eqb (CAP_PROP_FPS (cv2_capture e)) 0 = false).
  { rewrite FloatAxioms.eqb_spec. rewrite FloatAxioms.ltb_spec in Hlt.
    revert Hlt. change (Prim2SF 0) with (S754_zero false).
    destruct (Prim2SF (CAP_PROP_FPS (cv2_capture e))) as [[]|[]| |[] m ex];
      cbv; congruence. }
  rewrite Hz. eexists. reflexivity.
Qed.

(** The three ways [upload_video] returns; it never raises. *)
Lemma upload_video_spec self e video_path video_id st :
  let id := match video_id with Some id => id | None => generated_id e end in
  let dest_path := path_join (videos_path self) (id ++ ".mp4") in
  upload_video self e video_path video_id st =
    match ffmpeg_convert e with
    | Raise ex => (Ok (Failure (exn_str ex)), st)
    | Ok content =>
        let st1 := State (store st) (<[dest_path := content]> (files st)) in
        match _get_video_info e dest_path st1 with
        | (Raise ex, _) => (Ok (Failure (exn_str ex)), st1)
        | (Ok info, _) =>
            if fault_hits (sqlite_fault e) 1
            then (Ok (Failure (exn_str sqlite_error)), st1)
            else
              (Ok (Success (UploadPayload id info)),
               State
                 (exec_all (current_timestamp e)
                    [InsertOrReplaceVideo id (filename info) (duration info)
                       (fps info) (width info) (height info)] (store st))
                 (files st1))
        end
    end.
Proof.
  intros id dest_path. unfold upload_video, try_except, _convert_video.
  fold id. fold dest_path.
  unfold bind at 1. unfold bind at 1. unfold lift, write_file.
  destruct (ffmpeg_convert e) as [content|ex]; [|reflexivity].
  unfold bind at 1.
  destruct (get_video_info_ok e dest_path
              (State (store st) (<[dest_path := content]> (files st))))
    as [info Hinfo].
  rewrite Hinfo. unfold bind at 1. unfold _save_video_to_db.
  rewrite with_connection_spec. cbn [length].
  destruct (fault_hits (sqlite_fault e) 1); reflexivity.
Qed.

(** When [upload_video] fails the index is as it was: the row is written
    last. *)
Lemma upload_video_failure self e video_path video_id st error st' :
  upload_video self e video_path video_id st = (Ok (Failure error), st') ->
  store st' = store st.
Proof.
  rewrite upload_video_spec.
  destruct (ffmpeg_convert e) as [content|ex].
  - cbv zeta.
    destruct (_get_video_info e _ _) as [[info|ex] st1].
    + destruct (fault_hits (sqlite_fault e) 1); [|discriminate].
      intros H. injection H as _ <-. reflexivity.
    + intros H. injection H as _ <-. reflexivity.
  - intros H. injection H as _ <-. reflexivity.
Qed.

(** After a successful upload, [get_video_info] returns the metadata just
    probed, whatever row the id had before. *)
Lemma upload_then_get_video_info self e video_path video_id st p st' :
  upload_video self e video_path video_id st = (Ok (Success p), st') ->
  let info := up_video_info p in
  get_video_info (up_video_id p) st' =
    (Ok (Some (VideoRecord (up_video_id p) (filename info)
                 (fetch_real (duration info)) (fetch_real (fps info))
                 (width info) (height info) (current_timestamp e))),
     st').
Proof.
  rewrite upload_video_spec.
  destruct (ffmpeg_convert e) as [content|ex]; [|discriminate].
  cbv zeta. destruct (_get_video_info e _ _) as [[info|ex] st1];
    [|discriminate].
  destruct (fault_hits (sqlite_fault e) 1); [discriminate|].
  intros H. injection H as <- <-.
  unfold get_video_info, select_video, exec_all.
  cbn [fold_left exec store videos up_video_id up_video_info].
  rewrite lookup_insert_eq. reflexivity.
Qed.

(** The same for [detect_scenes]. *)
Lemma detect_scenes_failure self e video_id threshold st error st' :
  detect_scenes self e video_id threshold st = (Ok (Failure error), st') ->
  store st' = store st.
Proof.
  rewrite detect_scenes_spec.
  destruct (scene_detect e threshold) as [scene_list|ex].
  - pose proof (extract_scenes_store self e
                  (path_join (videos_path self) (video_id ++ ".mp4"))
                  video_id 0 scene_list st) as Hstore.
    destruct (extract_scenes self e _ video_id 0 scene_list st)
      as [[scs|ex] st1]; cbn [snd] in Hstore.
    + destruct (fault_hits (sqlite_fault e) (S (length scs)));
        [|discriminate].
      intros H. injection H as _ <-. exact Hstore.
    + intros H. injection H as _ <-. exact Hstore.
  - intros H. injection H as _ <-. reflexivity.
Qed.

(** Every way [transcribe_video] returns, with the state it leaves; it
    never raises. *)
Lemma transcribe_video_spec self e video_id st :
  transcribe_video self e video_id st =
    if negb (whisper_model self) then
      (Ok (Failure "Whisper model not available"), st)
    else
      let audio_path := tmp_audio_path e in
      match ffmpeg_audio e with
      | Raise ex =>
          (Ok (Failure (exn_str ex)),
           State (store st) (<[audio_path := ""]> (files st)))
      | Ok audio =>
          let fs := <[audio_path := audio]> (<[audio_path := ""]> (files st)) in
          match whisper_transcribe e with
          | Raise ex => (Ok (Failure (exn_str ex)), State (store st) fs)
          | Ok result =>
              let data := map segment_of_whisper (w_segments result) in
              if fault_hits (sqlite_fault e) (S (length data)) then
                (Ok (Failure (exn_str sqlite_error)), State (store st) fs)
              else
                let d :=
                  exec_all (current_timestamp e)
                    (DeleteTranscripts video_id
                       :: map (insert_segment video_id) data) (store st) in
                match json_dump e with
                | Raise ex => (Ok (Failure (exn_str ex)), State d fs)
                | Ok content =>
                    (Ok (Success (TranscribePayload data (w_full_text result))),
                     State d
                       (delete audio_path
                          (<[path_join (transcripts_path self)
                               (video_id ++ ".json") := content]> fs)))
                end
          end
      end.
Proof.
  unfold transcribe_video.
  destruct (negb (whisper_model self)); [reflexivity|].
  unfold try_except, _extract_audio, bind, lift, write_file, ret.
  cbn [store files].
  destruct (ffmpeg_audio e) as [audio|ex]; [|reflexivity].
  destruct (whisper_transcribe e) as [result|ex]; [|reflexivity].
  rewrite save_transcript_spec.
  destruct (fault_hits (sqlite_fault e)
              (S (length (map segment_of_whisper (w_segments result)))));
    [reflexivity|].
  cbn [store files].
  destruct (json_dump e) as [content|ex]; [|reflexivity].
  unfold os_remove. cbn [store files].
  match goal with
  | |- context [match ?m !! ?k with _ => _ end] => destruct (m !! k) eqn:Hl
  end; [reflexivity|].
  apply lookup_insert_None in Hl as [Hl _].
  rewrite lookup_insert_eq in Hl. discriminate.
Qed.

(** A failure of [transcribe_video] leaves the index as it was, unless it
    is the write of the transcript file that failed. *)
Lemma transcribe_video_failure self e video_id st error st' :
  transcribe_video self e video_id st = (Ok (Failure error), st') ->
  is_ok (json_dump e) = true ->
  store st' = store st.
Proof.
  rewrite transcribe_video_spec. intros H Hdump.
  destruct (negb (whisper_model self));
    [injection H as _ <-; reflexivity|].
  cbv zeta in H.
  destruct (ffmpeg_audio e) as [audio|ex];
    [|injection H as _ <-; reflexivity].
  destruct (whisper_transcribe e) as [result|ex];
    [|injection H as _ <-; reflexivity].
  destruct (fault_hits (sqlite_fault e) _);
    [injection H as _ <-; reflexivity|].
  destruct (json_dump e) as [content|ex]; discriminate.
Qed.

(** When [transcribe_video] succeeds, the scratch audio file is gone. *)
Lemma transcribe_video_success_cleans self e video_id st p st' :
  transcribe_video self e video_id st = (Ok (Success p), st') ->
  files st' !! tmp_audio_path e = None.
Proof.
  rewrite transcribe_video_spec. intros H.
  destruct (negb (whisper_model self)); [discriminate|].
  cbv zeta in H.
  destruct (ffmpeg_audio e) as [audio|ex]; [|discriminate].
  destruct (whisper_transcribe e) as [result|ex]; [|discriminate].
  destruct (fault_hits (sqlite_fault e) _); [discriminate|].
  destruct (json_dump e) as [content|ex]; [|discriminate].
  injection H as _ <-. cbn [files]. apply lookup_delete_eq.
Qed.

(** When it fails after the extraction has started, the scratch file
    stays: there is no cleanup on the failure paths. *)
Lemma transcribe_video_failure_leaks self e video_id st error st' :
  whisper_model self = true ->
  transcribe_video self e video_id st = (Ok (Failure error), st') ->
  is_Some (files st' !! tmp_audio_path e).
Proof.
  rewrite transcribe_video_spec. intros -> H. cbn [negb] in H.
  cbv zeta in H.
  destruct (ffmpeg_audio e) as [audio|ex].
  - destruct (whisper_transcribe e) as [result|ex].
    + destruct (fault_hits (sqlite_fault e) _).
      * injection H as _ <-. cbn [files]. rewrite lookup_insert_eq. eauto.
      * destruct (json_dump e) as [content|ex]; [discriminate|].
        injection H as _ <-. cbn [files]. rewrite lookup_insert_eq. eauto.
    + injection H as _ <-. cbn [files]. rewrite lookup_insert_eq. eauto.
  - injection H as _ <-. cbn [files]. rewrite lookup_insert_eq. eauto.
Qed.

End StageFacts.

(** ** The search *)

Module SearchFacts.
Import Sqlite SqliteFacts StoreFacts LocalVideoProcessor ProcessorFacts.
Import StringFacts RealOrder Notions.

(** *** The order of the rows *)

Lemma insert_by_start_time_perm r l : insert_by_start_time r l ≡ₚ r :: l.
Proof.
  induction l as [|r' l IH]; [reflexivity|]. cbn [insert_by_start_time].
  destruct (real_leb _ _); [reflexivity|].
  rewrite IH. apply Permutation_swap.
Qed.

Lemma order_by_start_time_perm l : order_by_start_time l ≡ₚ l.
Proof.
  induction l as [|r l IH]; [reflexivity|].
  cbn [order_by_start_time foldr]. fold (order_by_start_time l).
  rewrite insert_by_start_time_perm, IH. reflexivity.
Qed.

Lemma insert_by_start_time_sorted r l :
  StronglySorted transcript_le l ->
  StronglySorted transcript_le (insert_by_start_time r l).
Proof.
  induction 1 as [|r' l Hl IH Hr']; cbn [insert_by_start_time].
  - repeat constructor.
  - destruct (real_leb (t_start_time r) (t_start_time r')) eqn:Hle.
    + constructor; [constructor; assumption|].
      constructor; [exact Hle|].
      eapply Forall_impl; [exact Hr'|]. intros x Hx.
      exact (real_leb_trans _ _ _ Hle Hx).
    + constructor; [exact IH|].
      rewrite insert_by_start_time_perm. constructor; [|exact Hr'].
      destruct (real_leb_total (t_start_time r) (t_start_time r'))
        as [H|H]; [congruence | exact H].
Qed.

Lemma order_by_start_time_sorted l :
  StronglySorted transcript_le (order_by_start_time l).
Proof.
  induction l as [|r l IH]; [constructor|].
  apply insert_by_start_time_sorted, IH.
Qed.



(** *** The characters LIKE reads *)

Lemma utf8_finish_high c : (128 <= utf8_finish c)%N.
Proof.
  unfold utf8_finish. destruct (c <? 128)%N eqn:Hc; cbn [orb]; [lia|].
  apply N.ltb_ge in Hc. repeat case_match; lia.
Qed.

Lemma utf8_read_cons cur a l :
  utf8_read cur (a :: l) =
    let b := N_of_ascii a in
    let next :=
      if (b <? 192)%N then b :: utf8_read None l
      else utf8_read (Some (utf8_trans1 b)) l in
    match cur with
    | Some c =>
        if is_continuation b then utf8_read (Some (utf8_shift c b)) l
        else utf8_finish c :: next
    | None => next
    end.
Proof. reflexivity. Qed.

(** A byte that is not a continuation byte starts a character. *)
Lemma utf8_read_start cur a l :
  is_continuation (N_of_ascii a) = false ->
  utf8_read cur (a :: l) = (utf8_read cur [] ++ utf8_read None (a :: l))%list.
Proof.
  intros Ha. rewrite !utf8_read_cons. cbv zeta. rewrite Ha.
  destruct cur; reflexivity.
Qed.

Lemma utf8_read_app cur l1 a l2 :
  is_continuation (N_of_ascii a) = false ->
  utf8_read cur (l1 ++ a :: l2)
  = (utf8_read cur l1 ++ utf8_read None (a :: l2))%list.
Proof.
  intros Ha. revert cur. induction l1 as [|x l1 IH]; intros cur.
  - apply utf8_read_start, Ha.
  - cbn [app]. rewrite !(utf8_read_cons _ x). cbv zeta.
    destruct cur as [c|]; repeat case_match; cbn [app]; rewrite ?IH;
      reflexivity.
Qed.

(** A character below 128 is a byte of the text. *)
Lemma utf8_read_low cur l c :
  c ∈ utf8_read cur l -> (c < 128)%N -> exists a, a ∈ l /\ c = N_of_ascii a.
Proof.
  revert cur. induction l as [|x l IH]; intros cur Hin Hc.
  - destruct cur as [c0|]; [|inversion Hin].
    apply list_elem_of_singleton in Hin as ->.
    pose proof (utf8_finish_high c0). lia.
  - assert (Htail : forall cur', c ∈ utf8_read cur' l ->
                      exists a, a ∈ x :: l /\ c = N_of_ascii a).
    { intros cur' H. destruct (IH _ H Hc) as (a & Ha & ->).
      exists a. split; [right; exact Ha | reflexivity]. }
    rewrite utf8_read_cons in Hin. cbv zeta in Hin.
    assert (Hn : c ∈ (if (N_of_ascii x <? 192)%N
                      then N_of_ascii x :: utf8_read None l
                      else utf8_read (Some (utf8_trans1 (N_of_ascii x))) l) ->
                 exists a, a ∈ x :: l /\ c = N_of_ascii a).
    { destruct (N_of_ascii x <? 192)%N; [|apply Htail].
      intros [->|H]%elem_of_cons; [|exact (Htail _ H)].
      exists x. split; [left | reflexivity]. }
    destruct cur as [c0|]; [|exact (Hn Hin)].
    destruct (is_continuation (N_of_ascii x)); [exact (Htail _ Hin)|].
    apply elem_of_cons in Hin as [->|Hin]; [|exact (Hn Hin)].
    pose proof (utf8_finish_high c0). lia.
Qed.

Lemma c_string_all l : (0%N ∉ l) -> c_string l = l.
Proof.
  induction l as [|c l IH]; [reflexivity|]. intros Hl.
  apply not_elem_of_cons in Hl as [Hc Hl]. cbn [c_string].
  destruct (N.eqb_spec c 0); [congruence|]. rewrite IH by exact Hl.
  reflexivity.
Qed.

Lemma c_string_stop l1 l2 : (0%N ∉ l1) -> c_string (l1 ++ 0%N :: l2) = l1.
Proof.
  induction l1 as [|c l1 IH]; [reflexivity|]. intros Hl.
  apply not_elem_of_cons in Hl as [Hc Hl]. cbn [app c_string].
  destruct (N.eqb_spec c 0); [congruence|]. rewrite IH by exact Hl.
  reflexivity.
Qed.

Lemma nul_free_elem s :
  nul_free s = true -> Ascii.zero ∉ list_ascii_of_string s.
Proof.
  unfold nul_free. rewrite forallb_forall. intros H Hin.
  apply list_elem_of_In in Hin. specialize (H _ Hin). discriminate H.
Qed.

Lemma N_of_ascii_zero a : N_of_ascii a = 0%N -> a = Ascii.zero.
Proof.
  intros H. rewrite <- (ascii_N_embedding a), H. reflexivity.
Qed.

Lemma utf8_read_nul_free cur l : Ascii.zero ∉ l -> 0%N ∉ utf8_read cur l.
Proof.
  intros Hl Hin. destruct (utf8_read_low _ _ _ Hin) as (a & Ha & Heq); [lia|].
  symmetry in Heq. apply N_of_ascii_zero in Heq. subst a. exact (Hl Ha).
Qed.

Lemma until_nul_split s :
  (until_nul s = s /\ nul_free s = true) \/
  exists rest,
    list_ascii_of_string s
    = (list_ascii_of_string (until_nul s) ++ Ascii.zero :: rest)%list.
Proof.
  induction s as [|c s IH]; [left; split; reflexivity|].
  cbn [until_nul]. destruct (Ascii.eqb_spec c Ascii.zero) as [->|Hc].
  - right. exists (list_ascii_of_string s). reflexivity.
  - destruct IH as [[Heq Hfree]|[rest Hrest]].
    + left. rewrite Heq. split; [reflexivity|].
      unfold nul_free in *. cbn [list_ascii_of_string forallb].
      rewrite Hfree. apply Ascii.eqb_neq in Hc. rewrite Hc. reflexivity.
    + right. exists rest. cbn [list_ascii_of_string app]. rewrite Hrest.
      reflexivity.
Qed.

Lemma until_nul_free s : nul_free (until_nul s) = true.
Proof.
  induction s as [|c s IH]; [reflexivity|]. cbn [until_nul].
  destruct (Ascii.eqb c Ascii.zero) eqn:Hc; [reflexivity|].
  unfold nul_free in *. cbn [list_ascii_of_string forallb].
  rewrite Hc, IH. reflexivity.
Qed.

(** LIKE reads a text up to its first NUL. *)
Lemma c_string_decode s : c_string (utf8_decode s) = utf8_decode (until_nul s).
Proof.
  unfold utf8_decode.
  pose proof (utf8_read_nul_free None _
                (nul_free_elem _ (until_nul_free s))) as Hfree.
  destruct (until_nul_split s) as [[Heq _]|[rest Hrest]].
  - rewrite Heq in Hfree |- *. apply c_string_all, Hfree.
  - rewrite Hrest, utf8_read_app by reflexivity.
    rewrite utf8_read_cons. cbv zeta.
    change (N_of_ascii Ascii.zero) with 0%N. cbn [N.ltb N.compare].
    apply c_string_stop, Hfree.
Qed.

(** *** LIKE *)

Lemma like_chars_star pattern text :
  like_chars (N_of_ascii match_all :: pattern) text =
    like_chars pattern text
    || match text with
       | [] => false
       | _ :: text' => like_chars (N_of_ascii match_all :: pattern) text'
       end.
Proof. destruct text; reflexivity. Qed.

Lemma like_chars_any text : like_chars [N_of_ascii match_all] text = true.
Proof.
  induction text as [|c text IH]; [reflexivity|].
  rewrite like_chars_star, IH. apply orb_true_r.
Qed.

(** A character that LIKE takes for itself. *)
Lemma like_chars_plain p pattern text :
  p ≠ N_of_ascii match_all ->
  like_chars (p :: pattern) text =
    match text with
    | [] => false
    | c :: text' =>
        ((p =? N_of_ascii match_one)%N || char_eq_nocase p c)
        && like_chars pattern text'
    end.
Proof.
  intros Hp. cbn [like_chars].
  destruct (N.eqb_spec p (N_of_ascii match_all)); [contradiction|].
  reflexivity.
Qed.

Lemma like_chars_prefix query text :
  Forall (fun c => c ≠ N_of_ascii match_all /\ c ≠ N_of_ascii match_one)
    query ->
  like_chars (query ++ [N_of_ascii match_all]) text
  = prefix_read query text.
Proof.
  intros Hfree. revert text.
  induction Hfree as [|q query [Hall Hone] _ IH]; intros text.
  - rewrite like_chars_any. destruct text; reflexivity.
  - cbn [app]. rewrite like_chars_plain by exact Hall.
    destruct text as [|c text]; [reflexivity|]. cbn [prefix_read].
    destruct (N.eqb_spec q (N_of_ascii match_one)); [contradiction|].
    rewrite IH. reflexivity.
Qed.

Lemma like_chars_contains query text :
  Forall (fun c => c ≠ N_of_ascii match_all /\ c ≠ N_of_ascii match_one)
    query ->
  like_chars (N_of_ascii match_all :: query ++ [N_of_ascii match_all]) text
  = contains_read query text.
Proof.
  intros Hfree. induction text as [|c text IH].
  - rewrite like_chars_star, like_chars_prefix by exact Hfree.
    cbn [contains_read]. reflexivity.
  - rewrite like_chars_star, like_chars_prefix, IH by exact Hfree.
    reflexivity.
Qed.

(** The characters of the pattern [%query%]. *)
Lemma utf8_decode_pattern query :
  utf8_decode ("%" ++ query ++ "%")
  = N_of_ascii match_all
      :: (utf8_decode query ++ [N_of_ascii match_all])%list.
Proof.
  unfold utf8_decode.
  change ("%" ++ query ++ "%") with (String match_all (query ++ "%")).
  cbn [list_ascii_of_string]. rewrite list_ascii_of_string_app.
  change (list_ascii_of_string "%") with [match_all].
  rewrite utf8_read_cons. cbv zeta.
  change (N_of_ascii match_all <? 192)%N with true. cbv iota.
  rewrite utf8_read_app by reflexivity. reflexivity.
Qed.

Lemma utf8_read_not_byte cur l (w : ascii) :
  (N_of_ascii w < 128)%N -> w ∉ l -> N_of_ascii w ∉ utf8_read cur l.
Proof.
  intros Hlow Hw Hin.
  destruct (utf8_read_low _ _ _ Hin Hlow) as (a & Ha & Heq).
  apply (f_equal ascii_of_N) in Heq. rewrite !ascii_N_embedding in Heq.
  subst a. exact (Hw Ha).
Qed.

Lemma wildcard_free_decode query :
  wildcard_free query = true ->
  Forall (fun c => c ≠ N_of_ascii match_all /\ c ≠ N_of_ascii match_one)
    (utf8_decode query).
Proof.
  unfold wildcard_free. rewrite forallb_forall. intros Hfree.
  assert (Hno : forall w, w = match_all \/ w = match_one ->
                  w ∉ list_ascii_of_string query).
  { intros w Hw Hin. apply list_elem_of_In in Hin. specialize (Hfree _ Hin).
    apply andb_true_iff in Hfree as [H1 H2].
    apply negb_true_iff in H1, H2. apply Ascii.eqb_neq in H1, H2.
    destruct Hw; contradiction. }
  apply Forall_forall. intros c Hc. split; intros ->;
    revert Hc; apply utf8_read_not_byte; auto; reflexivity.
Qed.

(** *** An ASCII query *)

Lemma N_of_ascii_eqb x y :
  (N_of_ascii x =? N_of_ascii y)%N = Ascii.eqb x y.
Proof.
  destruct (Ascii.eqb_spec x y) as [->|Hne]; [apply N.eqb_refl|].
  apply N.eqb_neq. intros H. apply Hne.
  rewrite <- (ascii_N_embedding x), <- (ascii_N_embedding y), H.
  reflexivity.
Qed.

(** [tolower] leaves the bytes from 128 on alone, and the others below
    128. *)
Lemma tolower_high a : (128 <= N_of_ascii a)%N -> tolower a = a.
Proof.
  destruct a as [[] [] [] [] [] [] [] []]; vm_compute; intros H;
    first [reflexivity | exfalso; apply H; reflexivity].
Qed.

Lemma tolower_low a :
  (N_of_ascii a < 128)%N -> (N_of_ascii (tolower a) < 128)%N.
Proof.
  destruct a as [[] [] [] [] [] [] [] []]; vm_compute; congruence.
Qed.

(** On two ASCII characters LIKE compares the bytes without case. *)
Lemma char_eq_nocase_bytes x a :
  (N_of_ascii x < 128)%N -> (N_of_ascii a < 128)%N ->
  char_eq_nocase (N_of_ascii x) (N_of_ascii a) = byte_eq_nocase x a.
Proof.
  intros Hx Ha. unfold char_eq_nocase, byte_eq_nocase.
  apply N.ltb_lt in Hx, Ha. rewrite Hx, Ha, !ascii_N_embedding.
  rewrite N_of_ascii_eqb. cbn [andb].
  destruct (Ascii.eqb_spec x a) as [->|_]; [|reflexivity].
  rewrite Ascii.eqb_refl. reflexivity.
Qed.

(** An ASCII character is no character from 128 on, read or written. *)
Lemma char_eq_nocase_high x h :
  (N_of_ascii x < 128)%N -> (128 <= h)%N ->
  char_eq_nocase (N_of_ascii x) h = false.
Proof.
  intros Hx Hh. unfold char_eq_nocase.
  destruct (N.eqb_spec (N_of_ascii x) h); [lia|].
  destruct (N.ltb_spec h 128); [lia|]. rewrite andb_false_r. reflexivity.
Qed.

Lemma byte_eq_nocase_high x a :
  (N_of_ascii x < 128)%N -> (128 <= N_of_ascii a)%N ->
  byte_eq_nocase x a = false.
Proof.
  intros Hx Ha. unfold byte_eq_nocase. rewrite (tolower_high a Ha).
  apply Ascii.eqb_neq. intros Heq. apply tolower_low in Hx.
  rewrite Heq in Hx. lia.
Qed.

(** While a multi-byte character is being read, the next character read
    is that one: a character from 128 on. *)
Lemma utf8_read_pending c l :
  exists h rest, utf8_read (Some c) l = h :: rest /\ (128 <= h)%N.
Proof.
  revert c. induction l as [|a l IH]; intros c.
  - eexists _, _. split; [reflexivity | apply utf8_finish_high].
  - rewrite utf8_read_cons. cbv zeta.
    destruct (is_continuation (N_of_ascii a)); [apply IH|].
    eexists _, _. split; [reflexivity | apply utf8_finish_high].
Qed.

(** A byte from 128 on starts, or is, a character from 128 on. *)
Lemma utf8_read_high a l :
  (128 <= N_of_ascii a)%N ->
  exists h rest, utf8_read None (a :: l) = h :: rest /\ (128 <= h)%N.
Proof.
  intros Ha. rewrite utf8_read_cons. cbv zeta.
  destruct (N_of_ascii a <? 192)%N; [|apply utf8_read_pending].
  eexists _, _. split; [reflexivity | exact Ha].
Qed.

Lemma utf8_read_ascii a l :
  (N_of_ascii a < 128)%N ->
  utf8_read None (a :: l) = N_of_ascii a :: utf8_read None l.
Proof.
  intros Ha. rewrite utf8_read_cons. cbv zeta.
  destruct (N.ltb_spec (N_of_ascii a) 192); [reflexivity | lia].
Qed.

Lemma utf8_read_ascii_only q :
  Forall (fun c => (N_of_ascii c < 128)%N) q ->
  utf8_read None q = map N_of_ascii q.
Proof.
  induction 1 as [|a q Ha _ IH]; [reflexivity|].
  rewrite utf8_read_ascii by exact Ha. cbn [map]. rewrite IH. reflexivity.
Qed.

Lemma prefix_read_bytes q l :
  Forall (fun c => (N_of_ascii c < 128)%N) q ->
  prefix_read (map N_of_ascii q) (utf8_read None l) = prefix_nocase q l.
Proof.
  intros Hq. revert l. induction Hq as [|x q Hx _ IH]; intros l;
    [reflexivity|].
  destruct l as [|a l]; [reflexivity|]. cbn [map prefix_nocase].
  destruct (N.ltb_spec (N_of_ascii a) 128) as [Ha|Ha].
  - rewrite utf8_read_ascii by exact Ha. cbn [prefix_read].
    rewrite char_eq_nocase_bytes, IH by assumption. reflexivity.
  - destruct (utf8_read_high a l Ha) as (h & rest & -> & Hh).
    cbn [prefix_read].
    rewrite char_eq_nocase_high, byte_eq_nocase_high by assumption.
    reflexivity.
Qed.

(** An ASCII query is found among the characters of a text exactly where
    it is found among its bytes. *)
Lemma contains_read_bytes q l cur :
  Forall (fun c => (N_of_ascii c < 128)%N) q ->
  q ≠ [] ->
  contains_read (map N_of_ascii q) (utf8_read cur l) = contains_chars q l.
Proof.
  intros Hq Hne. destruct q as [|x q]; [congruence|]. clear Hne.
  pose proof (Forall_inv Hq) as Hx.
  assert (Hhigh : forall h rest,
            (128 <= h)%N ->
            prefix_read (map N_of_ascii (x :: q)) (h :: rest) = false).
  { intros h rest Hh. cbn [map prefix_read].
    rewrite char_eq_nocase_high by assumption. reflexivity. }
  revert cur. induction l as [|a l IH]; intros cur.
  - destruct cur as [c|]; [|reflexivity].
    cbn [utf8_read contains_read].
    rewrite Hhigh by apply utf8_finish_high. reflexivity.
  - assert (Hnone : contains_read (map N_of_ascii (x :: q))
                      (utf8_read None (a :: l))
                    = contains_chars (x :: q) (a :: l)).
    { cbn [contains_chars]. rewrite <- (IH None).
      destruct (N.ltb_spec (N_of_ascii a) 128) as [Ha|Ha].
      - rewrite <- prefix_read_bytes by exact Hq.
        rewrite utf8_read_ascii by exact Ha. reflexivity.
      - cbn [prefix_nocase]. rewrite byte_eq_nocase_high by assumption.
        cbn [andb orb]. rewrite utf8_read_cons. cbv zeta.
        destruct (N_of_ascii a <? 192)%N.
        + cbn [contains_read]. rewrite Hhigh by exact Ha. reflexivity.
        + rewrite !IH. reflexivity. }
    destruct cur as [c|]; [|exact Hnone].
    rewrite utf8_read_cons. cbv zeta.
    destruct (is_continuation (N_of_ascii a)) eqn:Hc.
    + rewrite IH. cbn [contains_chars prefix_nocase].
      rewrite byte_eq_nocase_high; [reflexivity | exact Hx |].
      unfold is_continuation in Hc. apply andb_true_iff in Hc as [Hc _].
      apply N.leb_le, Hc.
    + change (contains_read (map N_of_ascii (x :: q))
                (utf8_finish c :: utf8_read None (a :: l))
              = contains_chars (x :: q) (a :: l)).
      cbn [contains_read]. rewrite Hhigh by apply utf8_finish_high.
      exact Hnone.
Qed.

Lemma ascii_only_bytes query :
  ascii_only query = true ->
  Forall (fun c => (N_of_ascii c < 128)%N) (list_ascii_of_string query).
Proof.
  unfold ascii_only. rewrite forallb_forall. intros H.
  apply Forall_forall. intros c Hc. apply list_elem_of_In in Hc.
  apply N.ltb_lt, H, Hc.
Qed.

(** For an ASCII query without [%], [_] and NUL, [text LIKE '%query%']
    is the substring test on the text up to its first NUL, the ASCII
    letters compared without case. *)
Lemma like_wildcard_free text query :
  wildcard_free query = true -> nul_free query = true ->
  ascii_only query = true ->
  like text ("%" ++ query ++ "%") = contains_nocase (until_nul text) query.
Proof.
  intros Hfree Hnul Hascii. unfold like, contains_nocase.
  rewrite (c_string_decode text), utf8_decode_pattern.
  rewrite c_string_all.
  - rewrite like_chars_contains by apply wildcard_free_decode, Hfree.
    pose proof (ascii_only_bytes _ Hascii) as Hq. unfold utf8_decode.
    rewrite (utf8_read_ascii_only _ Hq).
    destruct (list_ascii_of_string query) as [|x q] eqn:Hquery.
    + destruct (utf8_read None _), (list_ascii_of_string (until_nul text));
        reflexivity.
    + apply contains_read_bytes; [exact Hq | discriminate].
  - intros Hin. apply elem_of_cons in Hin as [Hin|Hin]; [discriminate Hin|].
    apply elem_of_app in Hin as [Hin|Hin].
    + revert Hin. apply utf8_read_nul_free, nul_free_elem, Hnul.
    + apply list_elem_of_singleton in Hin. discriminate Hin.
Qed.

(** The pattern of the empty query, [%%], matches every text. *)
Lemma like_empty_query text : like text ("%" ++ "" ++ "%") = true.
Proof.
  unfold like.
  change (c_string (utf8_decode ("%" ++ "" ++ "%")))
    with [N_of_ascii match_all; N_of_ascii match_all].
  generalize (c_string (utf8_decode text)) as l.
  induction l as [|c l IH]; [reflexivity|].
  rewrite like_chars_star, IH. apply orb_true_r.
Qed.

(** *** The SELECT *)

(** The SELECT raises in one case only: a pattern over the limit met by
    a row of the video. *)
Lemma select_transcripts_cases d video_id pattern :
  (transcripts_of d video_id ≠ [] /\ like_pattern_ok pattern = false /\
   select_transcripts d video_id pattern = Raise pattern_too_complex)
  \/
  ((transcripts_of d video_id = [] \/ like_pattern_ok pattern = true) /\
   select_transcripts d video_id pattern =
     Ok (order_by_start_time
           (filter (fun r => like (t_text r) pattern = true)
              (transcripts_of d video_id)))).
Proof.
  rewrite select_transcripts_of.
  destruct (transcripts_of d video_id) as [|r rows] eqn:Hrows.
  - right. split; [left|]; reflexivity.
  - destruct (like_pattern_ok pattern).
    + right. split; [right|]; reflexivity.
    + left. split; [discriminate|]. split; reflexivity.
Qed.

Lemma select_transcripts_sorted d video_id pattern rows :
  select_transcripts d video_id pattern = Ok rows ->
  StronglySorted transcript_le rows.
Proof.
  destruct (select_transcripts_cases d video_id pattern)
    as [(_ & _ & ->)|(_ & ->)]; [discriminate|].
  intros H. injection H as <-. apply order_by_start_time_sorted.
Qed.

Lemma select_transcripts_perm d video_id pattern rows :
  select_transcripts d video_id pattern = Ok rows ->
  rows
  ≡ₚ filter (fun r => t_video_id r = video_id ∧ like (t_text r) pattern = true)
       (transcripts d).
Proof.
  destruct (select_transcripts_cases d video_id pattern)
    as [(_ & _ & ->)|(_ & ->)]; [discriminate|].
  intros H. injection H as <-. rewrite order_by_start_time_perm.
  unfold transcripts_of. rewrite list_filter_filter.
  erewrite list_filter_iff; [reflexivity|]. tauto.
Qed.

(** Called with [""], [search_transcript] returns every row of the
    video. *)
Lemma search_transcript_empty_query video_id st :
  search_transcript video_id "" st
  = (Ok (map hit_of_row
           (order_by_start_time (transcripts_of (store st) video_id))),
     st).
Proof.
  rewrite search_transcript_ok by reflexivity.
  rewrite filter_all; [reflexivity|].
  apply Forall_forall. intros r _. apply like_empty_query.
Qed.

End SearchFacts.

(** * The properties of the specification *)

Import Sqlite SqliteFacts StoreFacts LocalVideoProcessor ProcessorFacts.
Import KeyframeFacts SceneFacts StageFacts SearchFacts LocalVideoAgent.
Import Samples MoreSamples Notions.

(** C1, at an input where it fails.  The index holds a transcript of
    the video; audio extraction, transcription and the write of the new
    rows succeed, then the transcript file cannot be written:
    [transcribe_video] reports a failure, and the index holds the new
    rows in place of the old one all the same.  ([upload_video] and
    [detect_scenes] write the index last; see [upload_video_failure],
    [detect_scenes_failure] and [transcribe_video_failure].) *)
Theorem C1_failure_reported_after_commit :
  let r := transcribe_video self0 env_dump_fails "v" said_hello in
  transcripts (store said_hello)
    = [TranscriptRow 1 "v" 0 2 "hello" 0%float] /\
  fst r = Ok (Failure "No space left on device") /\
  transcripts (store (snd r))
    = [TranscriptRow 2 "v" 2 3.5 "world" (-0.25)%float;
       TranscriptRow 3 "v" 0 2 "Hello" 0%float].
Proof. vm_compute. repeat split. Qed.

(** C2, as stated, fails for [search_transcript] itself, which has no
    check of the query: called with the empty string on an index that
    holds the segment "hello" of video "v", it returns that segment. *)
Lemma C2_counterexample :
  transcripts (store said_hello) = [TranscriptRow 1 "v" 0 2 "hello" 0%float] /\
  search_transcript "v" "" said_hello
  = (Ok [Hit (Some 0%float) (Some 2%float) "hello" (Some 0%float)],
     said_hello).
Proof. vm_compute. split; reflexivity. Qed.

(** C2, amended.  The search action rejects an empty query before the
    index is read: [_handle_search] raises [ValueError] for every video id
    (the check of the id comes first and raises [ValueError] too), and
    [run] answers with an error and no results.  [search_transcript]
    itself does not reject it: for every video id it returns every
    segment stored under the id, in the order of [start_time]. *)
Theorem C2_empty_query_rejected_by_agent (self : processor) (e : env)
    (video_path video_id : option string) (threshold : float) (st : state) :
  let reason :=
    if Py.falsy video_id then "Video ID is required for search"
    else "Query is required for search" in
  _handle_search self video_id (Some "") st
    = (Raise (Exn ValueError reason), st) /\
  _handle_search self video_id None st
    = (Raise (Exn ValueError reason), st) /\
  run self e "search" video_path video_id (Some "") threshold st
    = (Ok (AgentResponse ERROR ("Local video processing failed: " ++ reason)
             (ErrorData reason)), st) /\
  forall id,
    search_transcript id "" st
    = (Ok (map hit_of_row
             (order_by_start_time (transcripts_of (store st) id))), st).
Proof.
  split; [|split; [|split]].
  - unfold _handle_search. destruct (Py.falsy video_id); reflexivity.
  - unfold _handle_search. destruct (Py.falsy video_id); reflexivity.
  - unfold run, try_except, _handle_search.
    destruct (Py.falsy video_id); reflexivity.
  - intros id. rewrite search_transcript_ok by reflexivity.
    rewrite filter_all; [reflexivity|].
    apply Forall_forall. intros r _. apply like_empty_query.
Qed.

(** C3, as stated, fails for the search: an id with no video row is not
    an error there.  The index is empty, and the search answers with
    success and no match. *)
Lemma C3_counterexample :
  select_video (store fresh) "ghost" = None /\
  search_transcript "ghost" "hello" fresh = (Ok [], fresh) /\
  run self0 env0 "search" None (Some "ghost") (Some "hello") default_threshold
    fresh
  = (Ok (AgentResponse SUCCESS "Search completed, found 0 matches"
           (SearchData [] "hello")), fresh).
Proof. repeat split. Qed.

(** C3, amended.  For a video id with no row in [videos]:
    [get_video_info] finds nothing and the get_info action fails with
    "Video not found"; [search_transcript] does not look at [videos] and
    does not fail: it returns the matches among the transcript rows
    stored under the id, and with no such rows the search action answers
    with success and an empty list.  (The one error of the search is
    SQLite's: it refuses a pattern of more than 50000 bytes when a row
    of the video meets it.  The source has no operation that lists
    scenes.) *)
Theorem C3_unknown_video_id (self : processor) (e : env)
    (video_path other : option string) (video_id query : string)
    (threshold : float) (st : state) :
  select_video (store st) video_id = None ->
  get_video_info video_id st = (Ok None, st) /\
  (video_id ≠ "" ->
   run self e "get_info" video_path (Some video_id) other threshold st
   = (Ok (AgentResponse ERROR
            ("Local video processing failed: Video not found: " ++ video_id)
            (ErrorData ("Video not found: " ++ video_id))), st)) /\
  search_transcript video_id query st
  = (if like_pattern_ok ("%" ++ query ++ "%")
        || bool_decide (transcripts_of (store st) video_id = [])
     then Ok (map hit_of_row
                (order_by_start_time
                   (filter
                      (fun r => like (t_text r) ("%" ++ query ++ "%") = true)
                      (transcripts_of (store st) video_id))))
     else Raise pattern_too_complex, st) /\
  (transcripts_of (store st) video_id = [] ->
   search_transcript video_id query st = (Ok [], st)) /\
  (transcripts_of (store st) video_id = [] ->
   video_id ≠ "" -> query ≠ "" ->
   run self e "search" video_path (Some video_id) (Some query) threshold st
   = (Ok (AgentResponse SUCCESS "Search completed, found 0 matches"
            (SearchData [] query)), st)).
Proof.
  intros Hnone.
  assert (Hinfo : get_video_info video_id st = (Ok None, st)).
  { unfold get_video_info. rewrite Hnone. reflexivity. }
  split; [exact Hinfo|].
  split; [|split; [apply search_transcript_spec|
                   split; [apply search_transcript_no_rows|]]].
  - intros Hid. unfold run, try_except, _handle_get_info, bind.
    cbn [String.eqb Ascii.eqb Bool.eqb Py.falsy default from_option id].
    apply String.eqb_neq in Hid. rewrite Hid.
    unfold output_message_append, push_update, ret. rewrite Hinfo.
    reflexivity.
  - intros Hrows Hid Hq. unfold run, try_except, _handle_search, bind.
    cbn [String.eqb Ascii.eqb Bool.eqb Py.falsy default from_option id].
    apply String.eqb_neq in Hid, Hq. rewrite Hid, Hq.
    unfold output_message_append, push_update, ret.
    rewrite (search_transcript_no_rows _ _ _ Hrows). reflexivity.
Qed.

Lemma C3_witness :
  get_video_info "ghost" fresh = (Ok None, fresh) /\
  run self0 env0 "get_info" None (Some "ghost") None default_threshold fresh
  = (Ok (AgentResponse ERROR
           "Local video processing failed: Video not found: ghost"
           (ErrorData "Video not found: ghost")), fresh).
Proof.
  pose proof (C3_unknown_video_id self0 env0 None None "ghost" "hello"
                default_threshold fresh eq_refl) as (Hinfo & Hrun & _).
  split; [exact Hinfo|]. apply Hrun. discriminate.
Defined.

(** C4, at an input where it fails.  The audio is extracted, Whisper
    raises, and when [transcribe_video] returns its failure the scratch
    audio file is still on disk: [os.remove] is on the success path
    only. *)
Theorem C4_scratch_audio_left_on_failure :
  let r := transcribe_video self0 env_whisper_fails "v" uploaded in
  files uploaded !! "/tmp/tmpk3v9q2.wav" = None /\
  fst r = Ok (Failure "transcription failed") /\
  files (snd r) !! "/tmp/tmpk3v9q2.wav" = Some "wav".
Proof. vm_compute. repeat split. Qed.




(** C6.  [_save_transcript_to_db] is one transaction: it is all or
    nothing, and while its statements run, up to the commit, the database
    file other connections read is the old one.  Whatever the index held
    before, after two calls for the same video id that both commit, the
    rows stored under the id are the second list, in its order:
    [search_transcript] reads the second set and no row of the first
    (and raises SQLite's error for a pattern of more than 50000 bytes
    when the second set is not empty). *)
Theorem C6_replace_transcript_twice (e1 e2 : env) (video_id : string)
    (segs1 segs2 : list segment) (st : state) :
  let r1 := _save_transcript_to_db e1 video_id segs1 st in
  let r2 := _save_transcript_to_db e2 video_id segs2 (snd r1) in
  (fst r1 = Ok tt \/ (fst r1 = Raise sqlite_error /\ snd r1 = st)) /\
  (fst r2 = Ok tt \/ (fst r2 = Raise sqlite_error /\ snd r2 = snd r1)) /\
  (forall k,
     db_file
       (fold_left (fun c s => execute (current_timestamp e2) s c)
          (firstn k (DeleteTranscripts video_id
                       :: map (insert_segment video_id) segs2))
          (connect (store (snd r1))))
     = store (snd r1)) /\
  (fst r1 = Ok tt -> fst r2 = Ok tt ->
   map segment_of_row (transcripts_of (store (snd r2)) video_id) = segs2 /\
   forall query,
     fst (search_transcript video_id query (snd r2)) =
       if like_pattern_ok ("%" ++ query ++ "%") || bool_decide (segs2 = [])
       then
         Ok (map hit_of_row
               (order_by_start_time
                  (filter
                     (fun r => like (t_text r) ("%" ++ query ++ "%") = true)
                     (transcript_rows (transcripts_seq (store (snd r1)))
                        (map (insert_segment video_id) segs2)))))
       else Raise pattern_too_complex).
Proof.
  intros r1 r2. subst r1 r2. rewrite !save_transcript_spec.
  destruct (fault_hits (sqlite_fault e1) (S (length segs1))) eqn:H1;
    cbn [fst snd]; (split; [auto|]);
    destruct (fault_hits (sqlite_fault e2) (S (length segs2))) eqn:H2;
    cbn [fst snd]; (split; [auto|]);
    (split; [intros k; apply uncommitted_invisible|]);
    intros; try discriminate.
  cbn [store]. rewrite replace_transcripts_of, transcript_rows_segments.
  split; [reflexivity|]. intros query.
  rewrite search_transcript_spec. cbn [fst store].
  rewrite replace_transcripts_of. destruct segs2; reflexivity.
Qed.

Lemma C6_witness :
  map segment_of_row
    (transcripts_of
       (store
          (snd (_save_transcript_to_db env0 "v" [seg_b]
                  (snd (_save_transcript_to_db env0 "v" [seg_a; seg_hello]
                          fresh))))) "v")
  = [seg_b].
Proof.
  apply (C6_replace_transcript_twice env0 env0 "v" [seg_a; seg_hello] [seg_b]
           fresh); reflexivity.
Defined.

(** C7, at an input where it fails.  The query "_" is a LIKE wildcard:
    the search returns the segment "hello", whose text does not contain
    the query as a substring. *)
Theorem C7_wildcard_query_is_not_a_substring_test :
  transcripts (store said_hello) = [TranscriptRow 1 "v" 0 2 "hello" 0%float] /\
  fst (search_transcript "v" "_" said_hello)
    = Ok [Hit (Some 0%float) (Some 2%float) "hello" (Some 0%float)] /\
  contains_nocase "hello" "_" = false.
Proof. vm_compute. repeat split. Qed.

(** C8.  A successful [detect_scenes] returns and commits one scene per
    boundary pair of the detector, numbered from 0; and when the detector
    returns no boundary (and the index raises no error) the call succeeds
    with an empty scene list and leaves no scene row for the video. *)
Theorem C8_scene_count (self : processor) (e : env) (video_id : string)
    (threshold : float) (st : state) :
  (forall p st',
     detect_scenes self e video_id threshold st = (Ok (Success p), st') ->
     exists scene_list,
       scene_detect e threshold = Ok scene_list /\
       scenes_data p = scenes_at self video_id 0 scene_list /\
       total_scenes p = length scene_list /\
       length (scenes_of (store st') video_id) = length scene_list /\
       map scene_of_row (scenes_of (store st') video_id) = scenes_data p) /\
  (scene_detect e threshold = Ok [] ->
   fault_hits (sqlite_fault e) 1 = false ->
   exists st',
     detect_scenes self e video_id threshold st
       = (Ok (Success (DetectPayload [] 0)), st') /\
     scenes_of (store st') video_id = []).
Proof.
  split.
  - intros p st'. rewrite detect_scenes_spec.
    destruct (scene_detect e threshold) as [scene_list|ex]; [|discriminate].
    destruct (extract_scenes self e _ video_id 0 scene_list st)
      as [[scs|ex] st1] eqn:Hloop; [|discriminate].
    destruct (fault_hits (sqlite_fault e) (S (length scs))); [discriminate|].
    intros H. injection H as <- <-.
    destruct (extract_scenes_ok _ _ _ _ _ _ _ _ _ Hloop) as [-> _].
    exists scene_list. cbn [scenes_data total_scenes store].
    rewrite replace_scenes_of, scenes_at_length.
    repeat split.
    + rewrite <- (length_map scene_of_row), scene_rows_scenes.
      apply scenes_at_length.
    + apply scene_rows_scenes.
  - intros Hdet Hfault. rewrite detect_scenes_spec, Hdet.
    cbn [extract_scenes ret length]. rewrite Hfault.
    eexists. split; [reflexivity|]. cbn [store].
    rewrite replace_scenes_of. reflexivity.
Qed.

Lemma C8_witness :
  (exists scene_list,
     scene_detect env0 default_threshold = Ok scene_list /\
     length (scenes_of (store two_scenes) "v") = length scene_list) /\
  exists st',
    detect_scenes self0 env_no_cut "v" default_threshold two_scenes
      = (Ok (Success (DetectPayload [] 0)), st') /\
    scenes_of (store st') "v" = [].
Proof.
  split.
  - destruct (proj1 (C8_scene_count self0 env0 "v" default_threshold uploaded)
                _ _ eq_refl) as (l & Hdet & _ & _ & Hlen & _).
    exists l. split; [exact Hdet | exact Hlen].
  - exact (proj2 (C8_scene_count self0 env_no_cut "v" default_threshold
                    two_scenes) eq_refl eq_refl).
Defined.

(** C9.  [_get_video_info] never raises: the division is reached only
    with a frame rate above zero, where it is frame count over frame
    rate, and a frame rate of zero (of either sign) gives duration 0. *)
Theorem C9_probe_duration (e : env) (video_path : string) (st : state) :
  let cap := cv2_capture e in
  exists info,
    _get_video_info e video_path st = (Ok info, st) /\
    fps info = CAP_PROP_FPS cap /\
    (PrimFloat.ltb 0 (CAP_PROP_FPS cap) = true ->
     duration info
       = PrimFloat.div (CAP_PROP_FRAME_COUNT cap) (CAP_PROP_FPS cap)) /\
    (PrimFloat.eqb (CAP_PROP_FPS cap) 0 = true ->
     duration info = 0%float).
Proof.
  intros cap. unfold _get_video_info, bind, lift, ret, Py.truediv.
  fold cap. destruct (PrimFloat.ltb 0 (CAP_PROP_FPS cap)) eqn:Hlt.
  - assert (Hz : PrimFloat.eqb (CAP_PROP_FPS cap) 0 = false).
    { rewrite FloatAxioms.eqb_spec. rewrite FloatAxioms.ltb_spec in Hlt.
      revert Hlt. change (Prim2SF 0) with (S754_zero false).
      destruct (Prim2SF (CAP_PROP_FPS cap)) as [[]|[]| |[] m ex];
        cbv; congruence. }
    rewrite Hz. eexists. split; [reflexivity|]. simpl.
    repeat split; auto. discriminate.
  - eexists. split; [reflexivity|]. simpl.
    repeat split; auto. discriminate.
Qed.

Lemma C9_witness :
  (exists info,
     _get_video_info env_no_fps "local_video_storage/videos/v.mp4" fresh
       = (Ok info, fresh) /\
     duration info = 0%float) /\
  (exists info,
     _get_video_info env0 "local_video_storage/videos/v.mp4" fresh
       = (Ok info, fresh) /\
     duration info = 5%float).
Proof.
  split.
  - destruct (C9_probe_duration env_no_fps "local_video_storage/videos/v.mp4"
                fresh) as (info & Hinfo & _ & _ & Hzero).
    exists info. split; [exact Hinfo|]. apply Hzero. reflexivity.
  - destruct (C9_probe_duration env0 "local_video_storage/videos/v.mp4"
                fresh) as (info & Hinfo & _ & Hdiv & _).
    exists info. split; [exact Hinfo|]. rewrite Hdiv; reflexivity.
Defined.

(** C10, as stated, fails on the clause that nothing is deleted: rows
    stored under the id by an earlier call are deleted, video row or
    not. *)
Lemma C10_counterexample :
  videos (store ghost_rows) !! "ghost" = None /\
  transcripts (store ghost_rows)
    = [TranscriptRow 1 "ghost" 0 2 "first take" (-0.5)%float] /\
  _save_transcript_to_db env0 "ghost" [seg_b] ghost_rows
    = (Ok tt,
       State
         (Database ∅ [TranscriptRow 2 "ghost" 1 4 "second take" (-0.125)%float]
            2 [] 0)
         ∅).
Proof. repeat split. Qed.

(** C10, amended.  For a video id with no row in [videos], when the index
    raises no error, [_save_transcript_to_db] succeeds and still leaves
    no video row; it deletes the transcript rows stored under that id
    and no others (none at all when there were none), appends the given
    segments in order, and [search_transcript] for the id reads them
    (and raises SQLite's error for a pattern of more than 50000 bytes
    when there are any). *)
Theorem C10_replace_without_video_row (e : env) (video_id : string)
    (segs : list segment) (st : state) :
  videos (store st) !! video_id = None ->
  fault_hits (sqlite_fault e) (S (length segs)) = false ->
  let r := _save_transcript_to_db e video_id segs st in
  let rows :=
    transcript_rows (transcripts_seq (store st))
      (map (insert_segment video_id) segs) in
  fst r = Ok tt /\
  videos (store (snd r)) !! video_id = None /\
  transcripts (store (snd r))
    = (filter (fun row => t_video_id row ≠ video_id) (transcripts (store st))
         ++ rows)%list /\
  (transcripts_of (store st) video_id = [] ->
   transcripts (store (snd r)) = (transcripts (store st) ++ rows)%list) /\
  map segment_of_row (transcripts_of (store (snd r)) video_id) = segs /\
  forall query,
    fst (search_transcript video_id query (snd r)) =
      if like_pattern_ok ("%" ++ query ++ "%") || bool_decide (segs = [])
      then
        Ok (map hit_of_row
              (order_by_start_time
                 (filter
                    (fun r => like (t_text r) ("%" ++ query ++ "%") = true)
                    rows)))
      else Raise pattern_too_complex.
Proof.
  intros Hvideo Hfault r rows. subst r rows.
  rewrite save_transcript_spec, Hfault. cbn [fst snd store].
  split; [reflexivity|].
  split; [rewrite replace_transcripts; exact Hvideo|].
  split; [rewrite replace_transcripts; reflexivity|].
  split.
  { intros Hnone. rewrite replace_transcripts. cbn [transcripts].
    rewrite filter_other_all by exact Hnone. reflexivity. }
  split.
  { rewrite replace_transcripts_of. apply transcript_rows_segments. }
  intros query. rewrite search_transcript_spec. cbn [fst store].
  rewrite replace_transcripts_of. destruct segs; reflexivity.
Qed.

Lemma C10_witness :
  fst (_save_transcript_to_db env0 "ghost" [seg_a] fresh) = Ok tt /\
  map segment_of_row (transcripts_of (store ghost_rows) "ghost") = [seg_a].
Proof.
  pose proof (C10_replace_without_video_row env0 "ghost" [seg_a] fresh
                eq_refl eq_refl) as H.
  split; [apply H | apply H].
Defined.

(** ** Further properties of the stages and of the search *)



(** For an ASCII query with no [%], no [_] and no NUL, within the limit,
    the rows found are the rows of the video whose text, up to its first
    NUL, contains the query as a substring, the ASCII letters compared
    without case; when no text contains it the result is the empty
    list. *)
Theorem search_transcript_substring (video_id query : string) (st : state) :
  ascii_only query = true ->
  wildcard_free query = true ->
  nul_free query = true ->
  like_pattern_ok ("%" ++ query ++ "%") = true ->
  exists rows,
    search_transcript video_id query st = (Ok (map hit_of_row rows), st) /\
    StronglySorted transcript_le rows /\
    rows ≡ₚ filter
              (fun r => t_video_id r = video_id
                        ∧ contains_nocase (until_nul (t_text r)) query = true)
              (transcripts (store st)) /\
    ((forall r, r ∈ transcripts_of (store st) video_id ->
                contains_nocase (until_nul (t_text r)) query = false) ->
     rows = []).
Proof.
  intros Hascii Hfree Hnul Hok. unfold search_transcript.
  pose proof (select_transcripts_ok (store st) video_id _ Hok) as Hsel.
  pose proof (select_transcripts_sorted _ _ _ _ Hsel) as Hsorted.
  pose proof (select_transcripts_perm _ _ _ _ Hsel) as Hperm.
  rewrite Hsel. eexists. split; [reflexivity|].
  assert (Hperm' :
    order_by_start_time
      (filter (fun r => like (t_text r) ("%" ++ query ++ "%") = true)
         (transcripts_of (store st) video_id))
    ≡ₚ filter
         (fun r => t_video_id r = video_id
                   ∧ contains_nocase (until_nul (t_text r)) query = true)
         (transcripts (store st))).
  { rewrite Hperm. erewrite list_filter_iff; [reflexivity|].
    intros r. rewrite like_wildcard_free by assumption. tauto. }
  split; [exact Hsorted|]. split; [exact Hperm'|].
  intros Hnone. apply Permutation_nil_r. rewrite Hperm'.
  rewrite filter_none; [reflexivity|].
  apply Forall_forall. intros r Hr [Hid Hc].
  rewrite (Hnone r) in Hc; [discriminate|].
  apply list_elem_of_filter. split; [exact Hid | exact Hr].
Qed.

Lemma search_transcript_substring_witness :
  exists rows,
    search_transcript "v" "zzz-no-match" said_hello
      = (Ok (map hit_of_row rows), said_hello) /\
    rows = [].
Proof.
  destruct (search_transcript_substring "v" "zzz-no-match" said_hello
              eq_refl eq_refl eq_refl eq_refl)
    as (rows & Hsearch & _ & _ & Hnone).
  exists rows. split; [exact Hsearch|]. apply Hnone.
  intros r Hr. vm_compute in Hr.
  apply elem_of_cons in Hr as [->|Hr]; [reflexivity | inversion Hr].
Defined.

(** The witnesses of the stage lemmas. *)

Lemma upload_video_failure_witness :
  upload_video self0 env_convert_fails "clips/in.avi" (Some "v") fresh
    = (Ok (Failure "ffmpeg returned non-zero exit status 1"), fresh) /\
  store fresh = store fresh.
Proof.
  split; [reflexivity|].
  exact (upload_video_failure self0 env_convert_fails "clips/in.avi"
           (Some "v") fresh _ fresh eq_refl).
Defined.

Lemma detect_scenes_failure_witness :
  store (snd (detect_scenes self0 env_detect_fails "v" default_threshold
                two_scenes))
  = store two_scenes.
Proof.
  exact (detect_scenes_failure self0 env_detect_fails "v" default_threshold
           two_scenes "Video file not found" _ eq_refl).
Defined.

Lemma transcribe_video_failure_witness :
  store (snd (transcribe_video self0 env_whisper_fails "v" said_hello))
  = store said_hello.
Proof.
  exact (transcribe_video_failure self0 env_whisper_fails "v" said_hello
           "transcription failed" _ eq_refl eq_refl).
Defined.

Lemma transcribe_video_success_cleans_witness :
  files (snd (transcribe_video self0 env0 "v" uploaded))
    !! "/tmp/tmpk3v9q2.wav" = None.
Proof.
  exact (transcribe_video_success_cleans self0 env0 "v" uploaded
           (TranscribePayload
              [Segment 2 3.5 "world" (-0.25)%float;
               Segment 0 2 "Hello" 0%float] "world Hello") _ eq_refl).
Defined.

Lemma upload_then_get_video_info_witness :
  get_video_info "v" uploaded
  = (Ok (Some (VideoRecord "v" "v.mp4" (Some 5%float) (Some 30%float) 640 480
                 "2024-05-01 10:00:00")), uploaded).
Proof.
  exact (upload_then_get_video_info self0 env0 "clips/in.avi" (Some "v") fresh
           (UploadPayload "v" (VideoInfo "v.mp4" 5 30 640 480)) _ eq_refl).
Defined.

(** * Further properties: the agent *)

Module AgentFacts.
Import Sqlite SqliteFacts StoreFacts LocalVideoProcessor ProcessorFacts.
Import SceneFacts StageFacts LocalVideoAgent AgentParameters Samples.

Lemma eqb_action_false (action name : string) :
  action ≠ name -> String.eqb action name = false.
Proof. apply String.eqb_neq. Qed.

(** An action outside the enum of the schema is answered with an error
    that names it, and nothing is touched. *)
Theorem run_unknown_action (self : processor) (e : env) (action : string)
    (video_path video_id query : option string) (threshold : float)
    (st : state) :
  action ∉ action_enum ->
  run self e action video_path video_id query threshold st
  = (Ok (AgentResponse ERROR
           ("Local video processing failed: Unknown action: " ++ action)
           (ErrorData ("Unknown action: " ++ action))), st).
Proof.
  unfold action_enum. intros H.
  repeat (apply not_elem_of_cons in H as [?%eqb_action_false H]).
  unfold run, try_except.
  repeat match goal with Hne : String.eqb action _ = false |- _ =>
    rewrite Hne; clear Hne end.
  reflexivity.
Qed.

Lemma run_unknown_action_witness :
  run self0 env0 "delete" None (Some "v") None default_threshold uploaded
  = (Ok (AgentResponse ERROR
           "Local video processing failed: Unknown action: delete"
           (ErrorData "Unknown action: delete")), uploaded).
Proof.
  apply (run_unknown_action self0 env0 "delete" None (Some "v") None
           default_threshold uploaded).
  unfold action_enum. intros H.
  repeat (apply elem_of_cons in H as [H|H]; [discriminate H|]).
  inversion H.
Defined.

(** Each action checks its required parameter first: without it the
    answer is an error that says which one is missing, the processor is
    not called and nothing is touched. *)
Theorem run_requires_parameters (self : processor) (e : env)
    (video_path video_id query : option string) (threshold : float)
    (st : state) :
  let failed reason :=
    (Ok (AgentResponse ERROR ("Local video processing failed: " ++ reason)
           (ErrorData reason)), st) in
  (Py.falsy video_path = true ->
   run self e "upload" video_path video_id query threshold st
   = failed "Video path is required for upload") /\
  (Py.falsy video_id = true ->
   run self e "transcribe" video_path video_id query threshold st
   = failed "Video ID is required for transcription" /\
   run self e "detect_scenes" video_path video_id query threshold st
   = failed "Video ID is required for scene detection" /\
   run self e "search" video_path video_id query threshold st
   = failed "Video ID is required for search" /\
   run self e "get_info" video_path video_id query threshold st
   = failed "Video ID is required to get info").
Proof.
  intros failed. subst failed. split.
  - intros H. unfold run, try_except, _handle_upload.
    cbn [String.eqb Ascii.eqb Bool.eqb]. rewrite H. reflexivity.
  - intros H.
    unfold run, try_except, _handle_transcribe, _handle_detect_scenes,
      _handle_search, _handle_get_info.
    cbn [String.eqb Ascii.eqb Bool.eqb]. rewrite H. repeat split.
Qed.

Lemma run_requires_parameters_witness :
  run self0 env0 "upload" (Some "") (Some "v") None default_threshold fresh
  = (Ok (AgentResponse ERROR
           "Local video processing failed: Video path is required for upload"
           (ErrorData "Video path is required for upload")), fresh) /\
  run self0 env0 "transcribe" None None None default_threshold fresh
  = (Ok (AgentResponse ERROR
           "Local video processing failed: Video ID is required for transcription"
           (ErrorData "Video ID is required for transcription")), fresh).
Proof.
  split.
  - exact (proj1 (run_requires_parameters self0 env0 (Some "") (Some "v") None
                    default_threshold fresh) eq_refl).
  - exact (proj1 (proj2 (run_requires_parameters self0 env0 None None None
                           default_threshold fresh) eq_refl)).
Defined.

(** When an external tool fails, the action answers with an error that
    carries the tool's own text, and the index is as it was; when the
    speech engine was not loaded, transcription is refused before anything
    is touched. *)
Theorem run_reports_tool_failure (self : processor) (e : env)
    (path id : string) (video_path video_id query : option string)
    (threshold : float) (st : state) (ex : exn) :
  let failed reason :=
    Ok (AgentResponse ERROR ("Local video processing failed: " ++ reason)
          (ErrorData reason)) in
  path ≠ "" -> id ≠ "" ->
  (ffmpeg_convert e = Raise ex ->
   let r := run self e "upload" (Some path) video_id query threshold st in
   fst r = failed (exn_str ex) /\ store (snd r) = store st) /\
  (whisper_model self = false ->
   run self e "transcribe" video_path (Some id) query threshold st
   = (failed "Whisper model not available", st)) /\
  (whisper_model self = true -> ffmpeg_audio e = Raise ex ->
   let r := run self e "transcribe" video_path (Some id) query threshold st in
   fst r = failed (exn_str ex) /\ store (snd r) = store st) /\
  (whisper_model self = true -> is_ok (ffmpeg_audio e) = true ->
   whisper_transcribe e = Raise ex ->
   let r := run self e "transcribe" video_path (Some id) query threshold st in
   fst r = failed (exn_str ex) /\ store (snd r) = store st) /\
  (scene_detect e threshold = Raise ex ->
   run self e "detect_scenes" video_path (Some id) query threshold st
   = (failed (exn_str ex), st)).
Proof.
  intros failed Hpath Hid. subst failed.
  apply String.eqb_neq in Hpath, Hid.
  unfold run, try_except, _handle_upload, _handle_transcribe,
    _handle_detect_scenes, bind, raise, output_message_append, push_update,
    publish, ret.
  cbn [String.eqb Ascii.eqb Bool.eqb Py.falsy default from_option
         Datatypes.id].
  rewrite Hpath, Hid.
  rewrite upload_video_spec, transcribe_video_spec, detect_scenes_spec.
  split; [|split; [|split; [|split]]].
  - intros Hc. rewrite Hc. split; reflexivity.
  - intros Hm. rewrite Hm. reflexivity.
  - intros Hm Ha. rewrite Hm, Ha. split; reflexivity.
  - intros Hm Ha Hw. rewrite Hm. cbn [negb]. cbv zeta.
    destruct (ffmpeg_audio e); [|discriminate Ha].
    rewrite Hw. split; reflexivity.
  - intros Hd. rewrite Hd. reflexivity.
Qed.

Lemma run_reports_tool_failure_witness :
  run self0 env_detect_fails "detect_scenes" None (Some "v") None
    default_threshold uploaded
  = (Ok (AgentResponse ERROR
           "Local video processing failed: Video file not found"
           (ErrorData "Video file not found")), uploaded).
Proof.
  refine (proj2 (proj2 (proj2 (proj2
            (run_reports_tool_failure self0 env_detect_fails "in.avi" "v" None
               None None default_threshold uploaded
               (Exn OSError "Video file not found") _ _)))) eq_refl);
    discriminate.
Defined.

(** After an upload action that succeeded, a get_info action for the
    same id, in whatever environment, answers with the metadata the upload
    returned and the time of that write (given that the probed duration
    and frame rate are numbers, which the text of the answer needs). *)
Theorem run_upload_then_get_info (self : processor) (e e' : env)
    (path id : string) (query video_path' query' : option string)
    (threshold threshold' : float) (st st' : state) (resp : agent_response) :
  path ≠ "" -> id ≠ "" ->
  run self e "upload" (Some path) (Some id) query threshold st
    = (Ok resp, st') ->
  status resp = SUCCESS ->
  exists info,
    data resp = UploadData (UploadPayload id info) /\
    (is_null (duration info) = false -> is_null (fps info) = false ->
     run self e' "get_info" video_path' (Some id) query' threshold' st'
     = (Ok (AgentResponse SUCCESS "Video information retrieved successfully"
              (InfoData
                 (VideoRecord id (filename info) (Some (duration info))
                    (Some (fps info)) (width info) (height info)
                    (current_timestamp e)))), st')).
Proof.
  intros Hpath Hid Hrun Hok. apply String.eqb_neq in Hpath, Hid.
  unfold run, try_except, _handle_upload, bind, raise,
    output_message_append, push_update, publish, ret in Hrun.
  cbn [String.eqb Ascii.eqb Bool.eqb Py.falsy default from_option
         Datatypes.id] in Hrun.
  rewrite Hpath, upload_video_spec in Hrun.
  destruct (ffmpeg_convert e) as [content|ex];
    [|injection Hrun as <- _; discriminate Hok].
  cbv zeta in Hrun.
  destruct (_get_video_info e _ _) as [[info|ex] st1];
    [|injection Hrun as <- _; discriminate Hok].
  destruct (fault_hits (sqlite_fault e) 1);
    [injection Hrun as <- _; discriminate Hok|].
  injection Hrun as <- <-.
  exists info. split; [reflexivity|]. intros Hd Hf.
  unfold run, try_except, _handle_get_info, bind, get_video_info,
    select_video, exec_all, output_message_append, push_update, publish,
    ret.
  cbn [String.eqb Ascii.eqb Bool.eqb Py.falsy default from_option
         Datatypes.id fold_left exec store videos].
  rewrite Hid. cbn [fold_left exec store videos].
  rewrite lookup_insert_eq.
  cbn [v_filename v_duration v_fps v_width v_height v_created_at
         rec_duration rec_fps].
  unfold fetch_real. rewrite Hd, Hf. reflexivity.
Qed.

Lemma run_upload_then_get_info_witness :
  run self0 env_no_cut "get_info" None (Some "v") None default_threshold
    uploaded
  = (Ok (AgentResponse SUCCESS "Video information retrieved successfully"
           (InfoData
              (VideoRecord "v" "v.mp4" (Some 5%float) (Some 30%float) 640 480
                 "2024-05-01 10:00:00"))), uploaded).
Proof.
  destruct (run_upload_then_get_info self0 env0 env_no_cut "clips/in.avi" "v"
              None None None default_threshold default_threshold fresh
              uploaded
              (AgentResponse SUCCESS "Video uploaded successfully"
                 (UploadData
                    (UploadPayload "v" (VideoInfo "v.mp4" 5 30 640 480)))))
    as (info & Hdata & Hget);
    [discriminate | discriminate | reflexivity | reflexivity |].
  injection Hdata as <-. apply Hget; reflexivity.
Defined.

End AgentFacts.

(** * Further properties: the stored text *)

Module TrimFacts.
Import Sqlite SqliteFacts StoreFacts LocalVideoProcessor ProcessorFacts.
Import StringFacts StageFacts Samples MoreSamples Notions.

(** A prefix is one of the [take]s. *)
Lemma prefix_is_take {A} (w l : list A) :
  w `prefix_of` l -> length w <= length l /\ w = take (length w) l.
Proof.
  intros [k ->]. rewrite length_app, take_app_length. split; [lia|].
  reflexivity.
Qed.

(** What is left starts with none of the characters, and what was
    dropped is a run of them. *)
Lemma strip_left_spec ws n l :
  Forall (fun w => 1 <= length w <= 3) ws ->
  length l <= n ->
  (forall w, w ∈ ws -> ¬ w `prefix_of` Py.strip_left ws l) /\
  exists seqs,
    Forall (fun w => w ∈ ws) seqs /\
    l = (concat seqs ++ Py.strip_left ws l)%list.
Proof.
  intros Hws. rewrite Forall_forall in Hws. revert l.
  assert (Hstop : forall l,
            (forall k, 1 <= k <= 3 -> take k l ∉ ws \/ length l < k) ->
            (forall w, w ∈ ws -> ¬ w `prefix_of` l) /\
            exists seqs, Forall (fun w => w ∈ ws) seqs /\
                         l = (concat seqs ++ l)%list).
  { intros l Hl. split; [|exists []; split; [constructor | reflexivity]].
    intros w Hw Hpre. specialize (Hws _ Hw).
    destruct (prefix_is_take _ _ Hpre) as [Hlen Heq].
    destruct (Hl _ Hws) as [H|H]; [|lia]. rewrite <- Heq in H.
    contradiction. }
  assert (Hgo : forall (w l l' : list ascii),
            w ∈ ws ->
            ((forall w, w ∈ ws -> ¬ w `prefix_of` l') /\
             exists seqs, Forall (fun w => w ∈ ws) seqs /\
                          l = (concat seqs ++ l')%list) ->
            (forall w, w ∈ ws -> ¬ w `prefix_of` l') /\
            exists seqs, Forall (fun w => w ∈ ws) seqs /\
                         (w ++ l)%list = (concat seqs ++ l')%list).
  { intros w l l' Hw [Hhead (seqs & Hseqs & Heq)]. split; [exact Hhead|].
    exists (w :: seqs). split; [constructor; assumption|].
    cbn [concat]. rewrite <- app_assoc, <- Heq. reflexivity. }
  induction n as [|n IH]; intros l Hlen.
  - destruct l; [|cbn in Hlen; lia]. apply Hstop. intros k Hk. right.
    cbn. lia.
  - destruct l as [|c1 l1]; [apply Hstop; intros k Hk; right; cbn; lia|].
    cbn [Py.strip_left]. cbn [length] in Hlen.
    destruct (bool_decide_reflect ([c1] ∈ ws)) as [H1|H1].
    { apply (Hgo [c1] l1); [exact H1|]. apply IH. lia. }
    destruct l1 as [|c2 l2].
    { apply Hstop. intros [|[|k]] Hk; auto; right; cbn; lia. }
    cbn [length] in Hlen.
    destruct (bool_decide_reflect ([c1; c2] ∈ ws)) as [H2|H2].
    { apply (Hgo [c1; c2] l2); [exact H2|]. apply IH. lia. }
    destruct l2 as [|c3 l3].
    { apply Hstop. intros [|[|[|k]]] Hk; auto; right; cbn; lia. }
    cbn [length] in Hlen.
    destruct (bool_decide_reflect ([c1; c2; c3] ∈ ws)) as [H3|H3].
    { apply (Hgo [c1; c2; c3] l3); [exact H3|]. apply IH. lia. }
    apply Hstop. intros [|[|[|[|k]]]] Hk; auto; lia.
Qed.

Lemma whitespace_lengths :
  Forall (fun w : list ascii => 1 <= length w <= 3) Py.whitespace.
Proof. unfold Py.whitespace. cbn [map]. repeat constructor. Qed.

Lemma whitespace_reverse_lengths :
  Forall (fun w : list ascii => 1 <= length w <= 3)
    (map reverse Py.whitespace).
Proof.
  apply Forall_map. eapply Forall_impl; [apply whitespace_lengths|].
  intros w Hw. cbn. rewrite length_reverse. exact Hw.
Qed.

Lemma reverse_concat_seqs (seqs : list (list ascii)) :
  reverse (concat seqs) = concat (reverse (map reverse seqs)).
Proof.
  induction seqs as [|w seqs IH]; [reflexivity|].
  cbn [concat map]. rewrite reverse_app, reverse_cons, IH, concat_app.
  cbn [concat]. rewrite app_nil_r. reflexivity.
Qed.

Lemma lstrip_spec l :
  (forall w, w ∈ Py.whitespace -> ¬ w `prefix_of` Py.lstrip l) /\
  exists pre, all_space pre /\ l = (pre ++ Py.lstrip l)%list.
Proof.
  destruct (strip_left_spec Py.whitespace (length l) l whitespace_lengths
              (le_n _)) as [Hhead (seqs & Hseqs & Heq)].
  split; [exact Hhead|]. exists (concat seqs). split; [|exact Heq].
  exists seqs. split; [exact Hseqs | reflexivity].
Qed.

Lemma rstrip_spec l :
  (forall w, w ∈ Py.whitespace -> ¬ w `suffix_of` Py.rstrip l) /\
  exists post, all_space post /\ l = (Py.rstrip l ++ post)%list.
Proof.
  destruct (strip_left_spec (map reverse Py.whitespace)
              (length (reverse l)) (reverse l) whitespace_reverse_lengths
              (le_n _)) as [Hhead (seqs & Hseqs & Heq)].
  unfold Py.rstrip. split.
  - intros w Hw Hsuf. apply suffix_prefix_reverse in Hsuf.
    rewrite reverse_involutive in Hsuf. revert Hsuf. apply Hhead.
    apply list_elem_of_fmap. exists w. auto.
  - exists (reverse (concat seqs)). split.
    + exists (reverse (map reverse seqs)). split; [|apply reverse_concat_seqs].
      apply Forall_forall. intros w Hw. rewrite elem_of_reverse in Hw.
      apply list_elem_of_fmap in Hw as (w' & -> & Hw').
      rewrite Forall_forall in Hseqs. specialize (Hseqs _ Hw').
      apply list_elem_of_fmap in Hseqs as (w0 & -> & Hw0).
      rewrite reverse_involutive. exact Hw0.
    + rewrite <- reverse_app, <- Heq, reverse_involutive. reflexivity.
Qed.

(** [strip] takes white space from the two ends, nothing else, and
    leaves none of it there. *)
Lemma strip_stripped_of s : stripped_of s (Py.strip s).
Proof.
  unfold stripped_of, trimmed, Py.strip.
  rewrite list_ascii_of_string_of_list_ascii.
  destruct (lstrip_spec (list_ascii_of_string s))
    as [Hhead (pre & Hpre & Hl)].
  destruct (rstrip_spec (Py.lstrip (list_ascii_of_string s)))
    as [Htail (post & Hpost & Hr)].
  split.
  - intros w Hw. split; [|apply Htail, Hw].
    intros Hp. apply (Hhead w Hw). rewrite Hr. apply prefix_app_r, Hp.
  - exists pre, post. split; [exact Hpre|]. split; [exact Hpost|].
    rewrite <- Hr. exact Hl.
Qed.

(** Every transcript text a successful transcription stores and returns
    has been stripped: it has no white space, ASCII or other, at either
    end (it may be empty, when Whisper's text was white space only). *)
Theorem transcribe_video_texts_trimmed (self : processor) (e : env)
    (video_id : string) (st st' : state) (p : transcribe_payload) :
  transcribe_video self e video_id st = (Ok (Success p), st') ->
  Forall (fun s => trimmed (text s)) (transcript p) /\
  Forall (fun r => trimmed (t_text r)) (transcripts_of (store st') video_id).
Proof.
  rewrite transcribe_video_spec.
  destruct (negb (whisper_model self)); [discriminate|]. cbv zeta.
  destruct (ffmpeg_audio e) as [audio|]; [|discriminate].
  destruct (whisper_transcribe e) as [result|]; [|discriminate].
  destruct (fault_hits _ _); [discriminate|].
  destruct (json_dump e) as [content|]; [|discriminate].
  intros H. injection H as <- <-. cbn [transcript store].
  assert (Hsegs : Forall (fun s => trimmed (text s))
                    (map segment_of_whisper (w_segments result))).
  { apply Forall_map, Forall_forall. intros w _.
    apply (strip_stripped_of (w_text w)). }
  split; [exact Hsegs|].
  rewrite replace_transcripts_of.
  rewrite <- (transcript_rows_segments (transcripts_seq (store st)) video_id
                (map segment_of_whisper (w_segments result))) in Hsegs.
  exact (proj1 (Forall_map _ _ _) Hsegs).
Qed.

Lemma transcribe_video_texts_trimmed_witness :
  map t_text
    (transcripts_of
       (store (snd (transcribe_video self0 env_padded "v" uploaded))) "v")
  = ["so it"; ""] /\
  Forall (fun r => trimmed (t_text r))
    (transcripts_of
       (store (snd (transcribe_video self0 env_padded "v" uploaded))) "v").
Proof.
  split; [vm_compute; reflexivity|].
  exact (proj2 (transcribe_video_texts_trimmed self0 env_padded "v" uploaded
                  (snd (transcribe_video self0 env_padded "v" uploaded))
                  (TranscribePayload
                     [Segment 0 1 "so it" (-0.5)%float;
                      Segment 1 2 "" 0%float] " so it goes ")
                  ltac:(vm_compute; reflexivity))).
Defined.

End TrimFacts.

(** * Further properties: the stages *)

Module PipelineFacts.
Import Sqlite SqliteFacts StoreFacts LocalVideoProcessor ProcessorFacts.
Import PathlibFacts KeyframeFacts SceneFacts StageFacts SearchFacts.
Import TrimFacts Samples MoreSamples Notions.

Lemma replace_scenes now video_id (scs : list scene) d :
  exec_all now (DeleteScenes video_id :: map (insert_scene video_id) scs) d =
    Database (videos d) (transcripts d) (transcripts_seq d)
      (filter (fun r => s_video_id r ≠ video_id) (scenes d)
         ++ scene_rows (scenes_seq d) (map (insert_scene video_id) scs))%list
      (scenes_seq d + Z.of_nat (length scs)).
Proof.
  change (exec_all now (DeleteScenes video_id
                          :: map (insert_scene video_id) scs) d)
    with (exec_all now (map (insert_scene video_id) scs)
            (exec now (DeleteScenes video_id) d)).
  rewrite exec_all_insert_scenes. reflexivity.
Qed.

Lemma filter_other_kept {A} (f : A -> string) (video_id other : string)
    (l rows : list A) :
  other ≠ video_id ->
  Forall (fun r => f r = video_id) rows ->
  filter (fun r => f r = other)
    (filter (fun r => f r ≠ video_id) l ++ rows)%list
  = filter (fun r => f r = other) l.
Proof.
  intros Hne Hrows. rewrite filter_app.
  rewrite (filter_none (fun r => f r = other) rows), app_nil_r.
  - apply list_filter_filter_l. intros r ->. exact Hne.
  - eapply Forall_impl; [exact Hrows|]. intros r -> Heq. apply Hne.
    symmetry. exact Heq.
Qed.

(** Transcribing a video, whether it succeeds or fails, leaves the video
    rows, the scene rows and the transcript rows of every other video as
    they were; a search in another video finds what it found before. *)
Theorem transcribe_video_frame (self : processor) (e : env)
    (video_id : string) (st : state) :
  let st' := snd (transcribe_video self e video_id st) in
  videos (store st') = videos (store st) /\
  scenes (store st') = scenes (store st) /\
  scenes_seq (store st') = scenes_seq (store st) /\
  forall other, other ≠ video_id ->
    transcripts_of (store st') other = transcripts_of (store st) other /\
    forall query,
      fst (search_transcript other query st')
      = fst (search_transcript other query st).
Proof.
  intros st'.
  assert (Hsearch : forall s1 s2 other,
            transcripts_of (store s1) other = transcripts_of (store s2) other ->
            forall query,
              fst (search_transcript other query s1)
              = fst (search_transcript other query s2)).
  { intros s1 s2 other Heq query. unfold search_transcript.
    cbn [fst]. rewrite !select_transcripts_of, Heq. reflexivity. }
  assert (Hcases :
    store st' = store st \/
    exists segs,
      store st' = exec_all (current_timestamp e)
                    (DeleteTranscripts video_id
                       :: map (insert_segment video_id) segs) (store st)).
  { subst st'. rewrite transcribe_video_spec.
    destruct (negb (whisper_model self)); [left; reflexivity|]. cbv zeta.
    destruct (ffmpeg_audio e); [|left; reflexivity].
    destruct (whisper_transcribe e) as [result|]; [|left; reflexivity].
    destruct (fault_hits _ _); [left; reflexivity|].
    right. exists (map segment_of_whisper (w_segments result)).
    destruct (json_dump e); reflexivity. }
  assert (Hother : forall other, other ≠ video_id ->
            transcripts_of (store st') other
            = transcripts_of (store st) other).
  { intros other Hne. destruct Hcases as [Heq|[segs Heq]]; rewrite Heq;
      [reflexivity|].
    rewrite replace_transcripts. unfold transcripts_of. cbn [transcripts].
    apply (filter_other_kept t_video_id); [exact Hne|].
    apply transcript_rows_video_id. }
  assert (Hrest : videos (store st') = videos (store st)
                  /\ scenes (store st') = scenes (store st)
                  /\ scenes_seq (store st') = scenes_seq (store st)).
  { destruct Hcases as [Heq|[segs Heq]]; rewrite Heq;
      [repeat split|]. rewrite replace_transcripts. repeat split. }
  destruct Hrest as (Hv & Hs & Hq). repeat split; auto.
Qed.

(** Detecting the scenes of a video, whether it succeeds or fails, leaves
    the video rows, the transcript rows and the scene rows of every other
    video as they were. *)
Theorem detect_scenes_frame (self : processor) (e : env) (video_id : string)
    (threshold : float) (st : state) :
  let st' := snd (detect_scenes self e video_id threshold st) in
  videos (store st') = videos (store st) /\
  transcripts (store st') = transcripts (store st) /\
  transcripts_seq (store st') = transcripts_seq (store st) /\
  forall other, other ≠ video_id ->
    scenes_of (store st') other = scenes_of (store st) other.
Proof.
  intros st'.
  assert (Hcases :
    store st' = store st \/
    exists scs,
      store st' = exec_all (current_timestamp e)
                    (DeleteScenes video_id :: map (insert_scene video_id) scs)
                    (store st)).
  { subst st'. rewrite detect_scenes_spec.
    destruct (scene_detect e threshold) as [scene_list|]; [|left; reflexivity].
    pose proof (extract_scenes_store self e
                  (path_join (videos_path self) (video_id ++ ".mp4"))
                  video_id 0 scene_list st) as Hstore.
    destruct (extract_scenes self e _ video_id 0 scene_list st)
      as [[scs|] st1]; cbn [snd] in Hstore; [|left; exact Hstore].
    destruct (fault_hits _ _); [left; exact Hstore|].
    right. exists scs. cbn [snd store]. rewrite Hstore. reflexivity. }
  destruct Hcases as [Heq|[scs Heq]]; rewrite Heq; [repeat split|].
  rewrite replace_scenes. repeat split.
  intros other Hne. unfold scenes_of. cbn [scenes].
  apply (filter_other_kept s_video_id); [exact Hne|].
  apply scene_rows_video_id.
Qed.

(** An upload, whether it succeeds or fails, touches no transcript row
    and no scene row, and no video row but the one of its id: the
    transcript and the scenes stored for an id stay when the id is
    uploaded again. *)
Theorem upload_video_frame (self : processor) (e : env) (video_path : string)
    (video_id : option string) (st : state) :
  let id := match video_id with Some id => id | None => generated_id e end in
  let st' := snd (upload_video self e video_path video_id st) in
  transcripts (store st') = transcripts (store st) /\
  transcripts_seq (store st') = transcripts_seq (store st) /\
  scenes (store st') = scenes (store st) /\
  scenes_seq (store st') = scenes_seq (store st) /\
  forall other, other ≠ id ->
    videos (store st') !! other = videos (store st) !! other.
Proof.
  intros id st'. subst st'. rewrite upload_video_spec. fold id.
  destruct (ffmpeg_convert e) as [content|]; [|repeat split].
  cbv zeta. destruct (_get_video_info e _ _) as [[info|] st1];
    [|repeat split].
  destruct (fault_hits _ _); [repeat split|].
  unfold exec_all. cbn [snd store fold_left exec transcripts transcripts_seq
                          scenes scenes_seq videos].
  repeat split. intros other Hne. apply lookup_insert_ne. congruence.
Qed.

(** A transcription that succeeds returns one segment per segment of
    Whisper, in its order: with Whisper's times, with Whisper's text
    less the white space at its two ends, and with [avg_logprob], or 0.0
    where Whisper gave none, as confidence.  It stores that list under
    the video id, in place of whatever was stored before, returns
    Whisper's full text with it, and leaves the dump of the result in the
    transcript file. *)
Theorem transcribe_video_success (self : processor) (e : env)
    (video_id : string) (st st' : state) (p : transcribe_payload) :
  transcribe_video self e video_id st = (Ok (Success p), st') ->
  exists result content,
    whisper_transcribe e = Ok result /\
    json_dump e = Ok content /\
    Forall2
      (fun w s =>
         start_time s = w_start w /\
         end_time s = w_end w /\
         stripped_of (w_text w) (text s) /\
         confidence s = default 0%float (w_avg_logprob w))
      (w_segments result) (transcript p) /\
    full_text p = w_full_text result /\
    map segment_of_row (transcripts_of (store st') video_id) = transcript p /\
    (path_join (transcripts_path self) (video_id ++ ".json")
       ≠ tmp_audio_path e ->
     files st' !! path_join (transcripts_path self) (video_id ++ ".json")
     = Some content).
Proof.
  rewrite transcribe_video_spec.
  destruct (negb (whisper_model self)); [discriminate|]. cbv zeta.
  destruct (ffmpeg_audio e) as [audio|]; [|discriminate].
  destruct (whisper_transcribe e) as [result|]; [|discriminate].
  destruct (fault_hits _ _); [discriminate|].
  destruct (json_dump e) as [content|]; [|discriminate].
  intros H. injection H as <- <-. exists result, content.
  cbn [transcript full_text store files].
  rewrite replace_transcripts_of, transcript_rows_segments.
  split; [reflexivity|]. split; [reflexivity|]. split.
  { induction (w_segments result) as [|w ws IH]; constructor; [|exact IH].
    cbn [segment_of_whisper start_time end_time text confidence].
    split; [reflexivity|]. split; [reflexivity|].
    split; [apply strip_stripped_of|].
    destruct (w_avg_logprob w); reflexivity. }
  repeat split. intros Hne.
  rewrite lookup_delete_ne by (intros Heq; apply Hne; symmetry; exact Heq).
  apply lookup_insert_eq.
Qed.

Lemma transcribe_video_success_witness :
  map segment_of_row
    (transcripts_of (store (snd (transcribe_video self0 env0 "v" said_hello)))
       "v")
  = [Segment 2 3.5 "world" (-0.25)%float; Segment 0 2 "Hello" 0%float] /\
  files (snd (transcribe_video self0 env0 "v" said_hello))
    !! "local_video_storage/transcripts/v.json" = Some "{}".
Proof.
  destruct (transcribe_video_success self0 env0 "v" said_hello _
              (TranscribePayload
                 [Segment 2 3.5 "world" (-0.25)%float;
                  Segment 0 2 "Hello" 0%float] "world Hello")
              ltac:(vm_compute; reflexivity))
    as (result & content & _ & Hd & _ & _ & Hrows & Hfile).
  split; [exact Hrows|]. injection Hd as <-. apply Hfile.
  vm_compute. discriminate.
Defined.

(** When the transcript file cannot be written, the failure is reported
    after the rows were committed: the call returns the error, and the
    index holds the new segments under the video id. *)
Theorem transcribe_video_dump_failure (self : processor) (e : env)
    (video_id : string) (st : state) (result : whisper_result) (ex : exn) :
  whisper_model self = true ->
  is_ok (ffmpeg_audio e) = true ->
  whisper_transcribe e = Ok result ->
  fault_hits (sqlite_fault e) (S (length (w_segments result))) = false ->
  json_dump e = Raise ex ->
  let r := transcribe_video self e video_id st in
  fst r = Ok (Failure (exn_str ex)) /\
  map segment_of_row (transcripts_of (store (snd r)) video_id)
  = map segment_of_whisper (w_segments result).
Proof.
  intros Hm Ha Hw Hf Hd r. subst r. rewrite transcribe_video_spec, Hm.
  cbn [negb]. cbv zeta.
  destruct (ffmpeg_audio e); [|discriminate Ha].
  rewrite Hw, length_map, Hf, Hd. cbn [fst snd store].
  rewrite replace_transcripts_of, transcript_rows_segments.
  split; reflexivity.
Qed.

Lemma transcribe_video_dump_failure_witness :
  fst (transcribe_video self0 env_dump_fails "v" said_hello)
    = Ok (Failure "No space left on device") /\
  map segment_of_row
    (transcripts_of
       (store (snd (transcribe_video self0 env_dump_fails "v" said_hello))) "v")
  = map segment_of_whisper (w_segments speech).
Proof.
  exact (transcribe_video_dump_failure self0 env_dump_fails "v" said_hello
           speech (Exn OSError "No space left on device")
           eq_refl eq_refl eq_refl eq_refl eq_refl).
Defined.

Lemma transcribe_video_failure_leaks_witness :
  is_Some
    (files (snd (transcribe_video self0 env_whisper_fails "v" uploaded))
       !! "/tmp/tmpk3v9q2.wav").
Proof.
  exact (transcribe_video_failure_leaks self0 env_whisper_fails "v" uploaded
           "transcription failed" _ eq_refl eq_refl).
Defined.




Lemma scene_rows_at self video_id seq0 i scene_list :
  let rows :=
    scene_rows seq0
      (map (insert_scene video_id) (scenes_at self video_id i scene_list)) in
  map s_scene_number rows = map Z.of_nat (seq i (length scene_list)) /\
  map (fun r => (s_start_time r, s_end_time r)) rows = scene_list /\
  map s_frame_path rows
  = map (keyframe_path self video_id) (seq i (length scene_list)).
Proof.
  revert seq0 i. induction scene_list as [|[t0 t1] l IH]; intros seq0 i;
    [repeat split|].
  destruct (IH (seq0 + 1)%Z (S i)) as (Hn & Ht & Hp).
  cbn [scenes_at map scene_rows insert_scene length seq scene_number
         scene_start_time scene_end_time frame_path s_scene_number
         s_start_time s_end_time s_frame_path] in *.
  rewrite Hn, Ht, Hp. repeat split.
Qed.

(** After a detection that succeeded, the scene rows of the video are
    numbered 0, 1, 2, ... without a gap, carry the boundary pairs of the
    detector in its order, and each names the path [_extract_keyframe]
    wrote for its video id and number; for an id with no slash in it,
    that is the file [<video_id>_scene_<number>.jpg]. *)
Theorem detect_scenes_rows (self : processor) (e : env) (video_id : string)
    (threshold : float) (st st' : state) (p : detect_payload) :
  detect_scenes self e video_id threshold st = (Ok (Success p), st') ->
  exists scene_list,
    let rows := scenes_of (store st') video_id in
    scene_detect e threshold = Ok scene_list /\
    map s_scene_number rows = map Z.of_nat (seq 0 (length scene_list)) /\
    map (fun r => (s_start_time r, s_end_time r)) rows = scene_list /\
    map s_frame_path rows
    = map (keyframe_path self video_id) (seq 0 (length scene_list)) /\
    (slash_free video_id = true ->
     map (fun r => path_name (s_frame_path r)) rows
     = map (fun i => video_id ++ "_scene_" ++ Py.str_of_nat i ++ ".jpg")
         (seq 0 (length scene_list))).
Proof.
  rewrite detect_scenes_spec.
  destruct (scene_detect e threshold) as [scene_list|]; [|discriminate].
  destruct (extract_scenes self e _ video_id 0 scene_list st)
    as [[scs|] st1] eqn:Hloop; [|discriminate].
  destruct (fault_hits _ _); [discriminate|].
  intros H. injection H as _ <-.
  destruct (extract_scenes_ok _ _ _ _ _ _ _ _ _ Hloop) as [-> _].
  exists scene_list. cbv zeta. cbn [store]. rewrite replace_scenes_of.
  split; [reflexivity|].
  destruct (scene_rows_at self video_id (scenes_seq (store st1)) 0 scene_list)
    as (Hn & Ht & Hp).
  split; [exact Hn|]. split; [exact Ht|]. split; [exact Hp|].
  intros Hid. rewrite <- (map_map s_frame_path path_name), Hp, map_map.
  apply map_ext. intros i. apply keyframe_path_name_slash_free, Hid.
Qed.

Lemma detect_scenes_rows_witness :
  map s_scene_number (scenes_of (store two_scenes) "v") = [0%Z; 1%Z] /\
  map (fun r => (s_start_time r, s_end_time r))
    (scenes_of (store two_scenes) "v") = two_cuts /\
  map (fun r => path_name (s_frame_path r)) (scenes_of (store two_scenes) "v")
  = ["v_scene_0.jpg"; "v_scene_1.jpg"].
Proof.
  destruct (detect_scenes_rows self0 env0 "v" default_threshold uploaded
              two_scenes _ eq_refl) as (l & Hdet & Hn & Ht & _ & Hname).
  injection Hdet as <-. split; [exact Hn|]. split; [exact Ht|].
  apply Hname. reflexivity.
Defined.

(** An upload that succeeded used the id it was given, or the generated
    one, left the file ffmpeg wrote at [videos/<id>.mp4], and recorded the
    frame rate and frame size OpenCV reported; the filename it records is
    the name of that managed copy, [<id>.mp4], not the name of the file
    that was uploaded. *)
Theorem upload_video_success (self : processor) (e : env)
    (video_path : string) (video_id : option string) (st st' : state)
    (p : upload_payload) :
  upload_video self e video_path video_id st = (Ok (Success p), st') ->
  let id := match video_id with Some id => id | None => generated_id e end in
  let info := up_video_info p in
  up_video_id p = id /\
  (exists content,
     ffmpeg_convert e = Ok content /\
     files st' !! path_join (videos_path self) (id ++ ".mp4") = Some content)
  /\ fps info = CAP_PROP_FPS (cv2_capture e)
  /\ width info = CAP_PROP_FRAME_WIDTH (cv2_capture e)
  /\ height info = CAP_PROP_FRAME_HEIGHT (cv2_capture e)
  /\ (slash_free id = true -> filename info = id ++ ".mp4").
Proof.
  rewrite upload_video_spec. intros H id info. subst info. fold id in H.
  destruct (ffmpeg_convert e) as [content|]; [|discriminate].
  cbv zeta in H.
  destruct (_get_video_info e _ _) as [[info|] st1] eqn:Hinfo;
    [|discriminate].
  destruct (fault_hits _ _); [discriminate|].
  injection H as <- <-. cbn [up_video_id up_video_info files].
  split; [reflexivity|]. split.
  { exists content. split; [reflexivity|]. apply lookup_insert_eq. }
  unfold _get_video_info, bind, lift, ret, Py.truediv in Hinfo.
  destruct (PrimFloat.ltb 0 _);
    [destruct (PrimFloat.eqb _ 0); [discriminate Hinfo|]|];
    injection Hinfo as <- _; cbn [fps width height filename];
    (repeat split; intros Hid; apply path_name_join;
     apply (path_parts_last_slash_free id "." "m" "p4" Hid); reflexivity).
Qed.

Lemma upload_video_success_witness :
  filename (VideoInfo "v.mp4" 5 30 640 480) = "v" ++ ".mp4" /\
  exists content,
    ffmpeg_convert env0 = Ok content /\
    files uploaded !! path_join (videos_path self0) ("v" ++ ".mp4")
    = Some content.
Proof.
  destruct (upload_video_success self0 env0 "clips/in.avi" (Some "v") fresh
              uploaded (UploadPayload "v" (VideoInfo "v.mp4" 5 30 640 480))
              eq_refl) as (_ & Hfile & _ & _ & _ & Hname).
  split; [apply Hname; reflexivity | exact Hfile].
Defined.

End PipelineFacts.

(** * Further properties: the case of letters in a search *)

Module CaseFacts.
Import Sqlite SqliteFacts StoreFacts LocalVideoProcessor ProcessorFacts.
Import StringFacts SearchFacts Samples Notions.

Lemma tolower_idem c : tolower (tolower c) = tolower c.
Proof. destruct c as [[] [] [] [] [] [] [] []]; reflexivity. Qed.

Lemma low_byte_starts b :
  (b < 128)%N -> is_continuation b = false /\ (b <? 192)%N = true.
Proof.
  intros Hb. unfold is_continuation. split.
  - destruct (N.leb_spec 128 b); [lia | reflexivity].
  - apply N.ltb_lt. lia.
Qed.

Lemma low_char_byte p : (p < 128)%N -> exists x, p = N_of_ascii x.
Proof.
  intros Hp. exists (ascii_of_N p). symmetry. apply N_ascii_embedding. lia.
Qed.

Lemma lower_char_byte x :
  (N_of_ascii x < 128)%N ->
  lower_char (N_of_ascii x) = N_of_ascii (tolower x)
  /\ (N_of_ascii (tolower x) < 128)%N.
Proof.
  destruct x as [[] [] [] [] [] [] [] []]; vm_compute; intros H;
    (split; [reflexivity | congruence]).
Qed.

Lemma lower_char_high c : (128 <= c)%N -> lower_char c = c.
Proof.
  intros Hc. unfold lower_char.
  destruct (N.ltb_spec c 128); [lia | reflexivity].
Qed.

Lemma lower_char_low c : (c < 128)%N -> (lower_char c < 128)%N.
Proof.
  intros Hc. destruct (low_char_byte c Hc) as [x ->].
  destruct (lower_char_byte x Hc) as [-> H]. exact H.
Qed.

Lemma lower_char_wildcard c (w : ascii) :
  w = match_all \/ w = match_one \/ w = Ascii.zero ->
  (lower_char c =? N_of_ascii w)%N = (c =? N_of_ascii w)%N.
Proof.
  intros Hw. destruct (N.ltb_spec c 128) as [Hc|Hc].
  - destruct (low_char_byte c Hc) as [x ->].
    destruct (lower_char_byte x Hc) as [-> _].
    destruct Hw as [->|[->| ->]];
      destruct x as [[] [] [] [] [] [] [] []]; reflexivity.
  - rewrite lower_char_high by exact Hc. reflexivity.
Qed.

Lemma char_eq_nocase_lower a b :
  char_eq_nocase (lower_char a) (lower_char b) = char_eq_nocase a b.
Proof.
  unfold char_eq_nocase.
  destruct (N.ltb_spec a 128) as [Ha|Ha], (N.ltb_spec b 128) as [Hb|Hb].
  - destruct (low_char_byte a Ha) as [x ->].
    destruct (low_char_byte b Hb) as [y ->].
    destruct (lower_char_byte x Ha) as [-> Hx].
    destruct (lower_char_byte y Hb) as [-> Hy].
    apply N.ltb_lt in Hx, Hy. rewrite Hx, Hy. cbn [andb].
    rewrite !ascii_N_embedding, !tolower_idem, !N_of_ascii_eqb.
    destruct (Ascii.eqb_spec x y) as [->|_];
      [rewrite Ascii.eqb_refl; reflexivity|].
    apply orb_diag.
  - rewrite (lower_char_high b) by exact Hb.
    pose proof (lower_char_low a Ha).
    destruct (N.ltb_spec b 128); [lia|]. rewrite !andb_false_r, !orb_false_r.
    destruct (N.eqb_spec (lower_char a) b), (N.eqb_spec a b);
      try reflexivity; lia.
  - rewrite (lower_char_high a) by exact Ha.
    pose proof (lower_char_low b Hb).
    destruct (N.ltb_spec a 128); [lia|]. cbn [andb]. rewrite !orb_false_r.
    destruct (N.eqb_spec a (lower_char b)), (N.eqb_spec a b);
      try reflexivity; lia.
  - rewrite !lower_char_high by assumption.
    destruct (N.ltb_spec a 128); [lia | reflexivity].
Qed.

Lemma like_chars_lower pattern text :
  like_chars (map lower_char pattern) (map lower_char text)
  = like_chars pattern text.
Proof.
  revert text. induction pattern as [|p pattern IH]; intros text.
  - destruct text; reflexivity.
  - destruct (N.eqb_spec p (N_of_ascii match_all)) as [->|Hp].
    + change (map lower_char (N_of_ascii match_all :: pattern))
        with (N_of_ascii match_all :: map lower_char pattern).
      induction text as [|c text IHt].
      * rewrite !like_chars_star, IH. reflexivity.
      * rewrite (like_chars_star pattern (c :: text)), <- IHt.
        change (map lower_char (c :: text))
          with (lower_char c :: map lower_char text).
        rewrite like_chars_star.
        change (lower_char c :: map lower_char text)
          with (map lower_char (c :: text)).
        rewrite IH. reflexivity.
    + cbn [map]. rewrite !like_chars_plain.
      * destruct text as [|c text]; [reflexivity|]. cbn [map].
        rewrite lower_char_wildcard, char_eq_nocase_lower, IH by auto.
        reflexivity.
      * exact Hp.
      * intros H. apply Hp. apply N.eqb_eq.
        rewrite <- (lower_char_wildcard p match_all) by auto.
        apply N.eqb_eq, H.
Qed.

Lemma utf8_read_lower cur l :
  utf8_read cur (map tolower l) = map lower_char (utf8_read cur l).
Proof.
  revert cur. induction l as [|a l IH]; intros cur.
  - destruct cur as [c|]; [|reflexivity]. cbn [utf8_read map].
    rewrite lower_char_high by apply utf8_finish_high. reflexivity.
  - cbn [map]. destruct (N.ltb_spec (N_of_ascii a) 128) as [Hlo|Hhi].
    + destruct (lower_char_byte a Hlo) as [Hl Hl'].
      destruct (low_byte_starts _ Hlo) as [Hc Hs].
      destruct (low_byte_starts _ Hl') as [Hc' Hs'].
      rewrite !utf8_read_cons. cbv zeta. rewrite Hc, Hs, Hc', Hs'.
      destruct cur as [c|]; cbn [map];
        rewrite ?IH, ?Hl, ?lower_char_high by apply utf8_finish_high;
        reflexivity.
    + rewrite (tolower_high a Hhi), !utf8_read_cons. cbv zeta.
      destruct cur as [c|]; [destruct (is_continuation _)|];
        destruct (N_of_ascii a <? 192)%N; cbn [map];
        rewrite ?IH, ?(lower_char_high (N_of_ascii a)),
          ?lower_char_high by (try apply utf8_finish_high; exact Hhi);
        reflexivity.
Qed.

Lemma c_string_lower l :
  c_string (map lower_char l) = map lower_char (c_string l).
Proof.
  induction l as [|c l IH]; [reflexivity|]. cbn [map c_string].
  change 0%N with (N_of_ascii Ascii.zero).
  rewrite lower_char_wildcard by auto.
  destruct (c =? N_of_ascii Ascii.zero)%N; [reflexivity|].
  cbn [map]. rewrite IH. reflexivity.
Qed.

Lemma list_lower s : list_ascii_of_string (lower s)
                     = map tolower (list_ascii_of_string s).
Proof. unfold lower. apply list_ascii_of_string_of_list_ascii. Qed.

Lemma utf8_decode_lower s :
  c_string (utf8_decode (lower s))
  = map lower_char (c_string (utf8_decode s)).
Proof.
  unfold utf8_decode. rewrite list_lower, utf8_read_lower.
  apply c_string_lower.
Qed.

(** LIKE does not see the case of the ASCII letters of its operands. *)
Lemma like_lower_both text pattern :
  like (lower text) (lower pattern) = like text pattern.
Proof.
  unfold like. rewrite !utf8_decode_lower. apply like_chars_lower.
Qed.

Lemma lower_pattern query :
  lower ("%" ++ query ++ "%") = "%" ++ lower query ++ "%".
Proof.
  apply list_ascii_of_string_inj. rewrite list_lower.
  change ("%" ++ lower query ++ "%") with (String "%" (lower query ++ "%")).
  change ("%" ++ query ++ "%") with (String "%" (query ++ "%")).
  cbn [list_ascii_of_string map]. rewrite !list_ascii_of_string_app, list_lower.
  rewrite map_app. reflexivity.
Qed.

Lemma like_lower text query :
  like (lower text) ("%" ++ lower query ++ "%")
  = like text ("%" ++ query ++ "%").
Proof. rewrite <- lower_pattern. apply like_lower_both. Qed.

Lemma lower_idem s : lower (lower s) = lower s.
Proof.
  apply list_ascii_of_string_inj. rewrite !list_lower, map_map.
  apply map_ext. intros c. apply tolower_idem.
Qed.

Lemma string_length_bytes s :
  String.length s = length (list_ascii_of_string s).
Proof. induction s as [|c s IH]; [reflexivity|]. cbn. rewrite IH. reflexivity. Qed.

Lemma lower_length s : String.length (lower s) = String.length s.
Proof.
  rewrite !string_length_bytes, list_lower. apply length_map.
Qed.

(** The search does not see the case of the ASCII letters, neither in the
    query nor in the stored text: a text matches a query exactly when its
    lower-case form matches the lower-case query, and two queries that
    differ in case only give the same result. *)
Theorem search_transcript_ignores_case (video_id : string) (st : state) :
  (forall text query,
     like text ("%" ++ query ++ "%")
     = like (lower text) ("%" ++ lower query ++ "%")) /\
  (forall query1 query2,
     lower query1 = lower query2 ->
     search_transcript video_id query1 st
     = search_transcript video_id query2 st).
Proof.
  split.
  - intros text query. symmetry. apply like_lower.
  - intros query1 query2 Heq. unfold search_transcript.
    rewrite !select_transcripts_of.
    assert (Hok : like_pattern_ok ("%" ++ query1 ++ "%")
                  = like_pattern_ok ("%" ++ query2 ++ "%")).
    { unfold like_pattern_ok.
      rewrite <- (lower_length ("%" ++ query1 ++ "%")),
        <- (lower_length ("%" ++ query2 ++ "%")), !lower_pattern, Heq.
      reflexivity. }
    rewrite Hok.
    assert (Hrows : forall rows : list transcript_row,
              filter (fun r => like (t_text r) ("%" ++ query1 ++ "%") = true)
                rows
              = filter (fun r => like (t_text r) ("%" ++ query2 ++ "%") = true)
                  rows).
    { intros rows. apply list_filter_iff. intros r.
      rewrite <- (like_lower (t_text r) query1),
        <- (like_lower (t_text r) query2), Heq. reflexivity. }
    rewrite Hrows. reflexivity.
Qed.

Lemma search_transcript_ignores_case_witness :
  search_transcript "v" "HeLLo" said_hello
  = search_transcript "v" "hello" said_hello.
Proof.
  apply (proj2 (search_transcript_ignores_case "v" said_hello)).
  reflexivity.
Defined.

End CaseFacts.

(** * Further properties: the keyframe files *)

Module PathFacts.
Import Sqlite SqliteFacts StoreFacts LocalVideoProcessor ProcessorFacts.
Import StringFacts KeyframeFacts SceneFacts Samples MoreSamples Notions.



(** With a slash in the id the names can meet: [pathlib] drops a ["."]
    component, so the ids ["v"] and ["./v"] share their keyframe
    files. *)
Lemma keyframe_path_dot_slash (self : processor) (j : nat) :
  keyframe_path self "./v" j = keyframe_path self "v" j.
Proof.
  unfold keyframe_path, path_join, path_parts.
  change ("./v" ++ "_scene_" ++ Py.str_of_nat j ++ ".jpg")
    with (String "." (String "/" ("v" ++ "_scene_" ++ Py.str_of_nat j
                                     ++ ".jpg"))).
  change ("v" ++ "_scene_" ++ Py.str_of_nat j ++ ".jpg")
    with (String "v" ("_scene_" ++ Py.str_of_nat j ++ ".jpg")).
  cbn [path_root split_slash Ascii.eqb Bool.eqb].
  rewrite (filter_cons_False _ "." ) by (intros [_ H]; apply H; reflexivity).
  reflexivity.
Qed.

End PathFacts.

(** * Further properties: the rowids *)

Module RowidFacts.
Import Sqlite SqliteFacts StoreFacts LocalVideoProcessor ProcessorFacts.
Import SceneFacts StageFacts Samples Notions.

Lemma Forall_map_filter {A} (f : A -> Z) (Q : Z -> Prop) (P : A -> Prop)
    `{forall x, Decision (P x)} (l : list A) :
  Forall Q (map f l) -> Forall Q (map f (filter P l)).
Proof.
  induction l as [|a l IH]; [auto|]. cbn [map]. intros Hl.
  apply Forall_cons in Hl as [Ha Hl]. rewrite filter_cons.
  destruct (decide (P a)); [cbn [map]; constructor|]; auto.
Qed.

Lemma rowids_filter {A} (f : A -> Z) (P : A -> Prop)
    `{forall x, Decision (P x)} (l : list A) (seq : Z) :
  rowids_ok (map f l) seq -> rowids_ok (map f (filter P l)) seq.
Proof.
  unfold rowids_ok. intros [Hs Hle]. split; [|apply Forall_map_filter, Hle].
  induction l as [|a l IH]; [exact Hs|]. cbn [map] in Hs, Hle.
  apply StronglySorted_cons in Hs as [Ha Hs].
  apply Forall_cons in Hle as [_ Hle]. rewrite filter_cons.
  destruct (decide (P a)); [|auto]. cbn [map].
  apply StronglySorted_cons. split; [apply Forall_map_filter, Ha | auto].
Qed.

Lemma rowids_snoc (ids : list Z) (seq : Z) :
  rowids_ok ids seq -> rowids_ok (ids ++ [(seq + 1)%Z]) (seq + 1).
Proof.
  unfold rowids_ok. intros [Hs Hle]. split.
  - apply StronglySorted_app. split; [|split].
    + intros x1 x2 H1 H2. apply list_elem_of_singleton in H2 as ->.
      rewrite Forall_forall in Hle. specialize (Hle _ H1). lia.
    + exact Hs.
    + repeat constructor.
  - apply Forall_app. split.
    + eapply Forall_impl; [exact Hle|]. intros i Hi. simpl in Hi. lia.
    + repeat constructor. lia.
Qed.

Lemma exec_rowids now s d :
  index_rowids_ok d -> index_rowids_ok (exec now s d).
Proof.
  unfold index_rowids_ok. intros [Ht Hs].
  destruct s; cbn [exec transcripts transcripts_seq scenes scenes_seq];
    split; auto.
  - apply rowids_filter, Ht.
  - rewrite map_app. apply rowids_snoc, Ht.
  - apply rowids_filter, Hs.
  - rewrite map_app. apply rowids_snoc, Hs.
Qed.

Lemma exec_all_rowids now ss d :
  index_rowids_ok d -> index_rowids_ok (exec_all now ss d).
Proof.
  unfold exec_all. revert d. induction ss as [|s ss IH]; intros d Hd;
    [exact Hd|]. cbn [fold_left]. apply IH, exec_rowids, Hd.
Qed.

Lemma rowids_fresh_refl {A} (f : A -> Z) l seq : rowids_fresh f l seq l seq.
Proof. split; [lia | auto]. Qed.

Lemma rowids_fresh_trans {A} (f : A -> Z) l1 seq1 l2 seq2 l3 seq3 :
  rowids_fresh f l1 seq1 l2 seq2 -> rowids_fresh f l2 seq2 l3 seq3 ->
  rowids_fresh f l1 seq1 l3 seq3.
Proof.
  intros [H12 Hr12] [H23 Hr23]. split; [lia|]. intros r Hr.
  destruct (Hr23 r Hr) as [H|H]; [apply Hr12, H | right; lia].
Qed.

Lemma rowids_fresh_filter {A} (f : A -> Z) (P : A -> Prop)
    `{forall x, Decision (P x)} l seq :
  rowids_fresh f l seq (filter P l) seq.
Proof.
  split; [lia|]. intros r Hr. left.
  apply list_elem_of_filter in Hr. tauto.
Qed.

Lemma rowids_fresh_snoc {A} (f : A -> Z) l seq r :
  f r = (seq + 1)%Z -> rowids_fresh f l seq (l ++ [r]) (seq + 1).
Proof.
  intros Hr. split; [lia|]. intros x Hx.
  apply elem_of_app in Hx as [Hx|Hx]; [left; exact Hx|].
  apply list_elem_of_singleton in Hx as ->. right. lia.
Qed.

Lemma index_rowids_fresh_refl d : index_rowids_fresh d d.
Proof. split; apply rowids_fresh_refl. Qed.

Lemma exec_fresh now s d : index_rowids_fresh d (exec now s d).
Proof.
  unfold index_rowids_fresh.
  destruct s; cbn [exec transcripts transcripts_seq scenes scenes_seq];
    split; try apply rowids_fresh_refl.
  - apply rowids_fresh_filter.
  - apply rowids_fresh_snoc. reflexivity.
  - apply rowids_fresh_filter.
  - apply rowids_fresh_snoc. reflexivity.
Qed.

Lemma exec_all_fresh now ss d : index_rowids_fresh d (exec_all now ss d).
Proof.
  unfold exec_all. revert d. induction ss as [|s ss IH]; intros d;
    [apply index_rowids_fresh_refl|]. cbn [fold_left].
  destruct (exec_fresh now s d) as [Ht Hs].
  destruct (IH (exec now s d)) as [Ht' Hs'].
  split; eapply rowids_fresh_trans; eassumption.
Qed.

(** Rows of increasing rowids are told apart by their rowid. *)
Lemma sorted_rowids_inj {A} (f : A -> Z) (l : list A) r r0 :
  StronglySorted Z.lt (map f l) -> r ∈ l -> r0 ∈ l -> f r = f r0 -> r = r0.
Proof.
  induction l as [|a l IH]; intros Hs Hr Hr0 Heq; [inversion Hr|].
  cbn [map] in Hs. apply StronglySorted_cons in Hs as [Ha Hs].
  rewrite Forall_forall in Ha.
  assert (Hlt : forall x, x ∈ l -> (f a < f x)%Z).
  { intros x Hx. apply Ha, list_elem_of_fmap. exists x. auto. }
  apply elem_of_cons in Hr as [->|Hr], Hr0 as [->|Hr0].
  - reflexivity.
  - specialize (Hlt _ Hr0). lia.
  - specialize (Hlt _ Hr). lia.
  - exact (IH Hs Hr Hr0 Heq).
Qed.

(** Above the sequence means unused: a row of the new table that has
    the rowid of a row of the old table is that row. *)
Lemma fresh_not_reused {A} (f : A -> Z) old old_seq new new_seq :
  rowids_ok (map f old) old_seq ->
  rowids_fresh f old old_seq new new_seq ->
  rowids_not_reused f old new.
Proof.
  intros [Hs Hle] [_ Hfresh] r r0 Hr Hr0 Heq.
  destruct (Hfresh r Hr) as [Hold|Hnew].
  - exact (sorted_rowids_inj f old r r0 Hs Hold Hr0 Heq).
  - rewrite Forall_forall in Hle.
    assert (f r0 <= old_seq)%Z
      by (apply Hle, list_elem_of_fmap; exists r0; auto).
    lia.
Qed.

(** What a stage leaves in the index: what it found, or what a run of
    statements made of it. *)
Lemma stage_store_cases self e video_path upload_id video_id threshold st st' :
  st' = snd (upload_video self e video_path upload_id st)
  \/ st' = snd (transcribe_video self e video_id st)
  \/ st' = snd (detect_scenes self e video_id threshold st) ->
  store st' = store st \/
  exists now ss, store st' = exec_all now ss (store st).
Proof.
  intros [->|[->| ->]].
  - rewrite upload_video_spec.
    destruct (ffmpeg_convert e); [|left; reflexivity]. cbv zeta.
    destruct (_get_video_info e _ _) as [[info|] st1]; [|left; reflexivity].
    destruct (fault_hits _ _); [left; reflexivity|].
    right. eexists _, _. reflexivity.
  - rewrite transcribe_video_spec.
    destruct (negb (whisper_model self)); [left; reflexivity|]. cbv zeta.
    destruct (ffmpeg_audio e); [|left; reflexivity].
    destruct (whisper_transcribe e); [|left; reflexivity].
    destruct (fault_hits _ _); [left; reflexivity|].
    right. destruct (json_dump e); eexists _, _; reflexivity.
  - rewrite detect_scenes_spec.
    destruct (scene_detect e threshold) as [scene_list|];
      [|left; reflexivity].
    pose proof (extract_scenes_store self e
                  (path_join (videos_path self) (video_id ++ ".mp4"))
                  video_id 0 scene_list st) as Hstore.
    destruct (extract_scenes self e _ video_id 0 scene_list st)
      as [[scs|] st1]; cbn [snd] in Hstore |- *; [|left; exact Hstore].
    destruct (fault_hits _ _); cbn [snd store]; [left; exact Hstore|].
    right. rewrite Hstore. eexists _, _. reflexivity.
Qed.

(** Through every stage, whether it succeeds or fails, the rowids of the
    transcript rows and of the scene rows stay increasing in the order of
    insertion, hence distinct, and below the AUTOINCREMENT sequence; the
    sequence never goes back, every row the stage adds has a rowid above
    the sequence it found, and so no row gets the rowid of a row that
    was deleted. *)
Theorem stages_keep_rowids (self : processor) (e : env) (video_path : string)
    (upload_id : option string) (video_id : string) (threshold : float)
    (st st' : state) :
  index_rowids_ok (store st) ->
  st' = snd (upload_video self e video_path upload_id st)
  \/ st' = snd (transcribe_video self e video_id st)
  \/ st' = snd (detect_scenes self e video_id threshold st) ->
  index_rowids_ok (store st') /\
  index_rowids_fresh (store st) (store st') /\
  rowids_not_reused t_id (transcripts (store st)) (transcripts (store st')) /\
  rowids_not_reused s_id (scenes (store st)) (scenes (store st')).
Proof.
  intros Hst Hstage.
  assert (Hok : index_rowids_ok (store st')
                /\ index_rowids_fresh (store st) (store st')).
  { destruct (stage_store_cases _ _ _ _ _ _ _ _ Hstage)
      as [->|(now & ss & ->)].
    - split; [exact Hst | apply index_rowids_fresh_refl].
    - split; [apply exec_all_rowids, Hst | apply exec_all_fresh]. }
  destruct Hok as [Hok Hfresh]. split; [exact Hok|]. split; [exact Hfresh|].
  destruct Hst as [Ht Hs], Hfresh as [Hft Hfs].
  split; eapply fresh_not_reused; eassumption.
Qed.

Lemma stages_keep_rowids_witness :
  index_rowids_ok (store said_hello) /\
  map t_id (transcripts (store said_hello)) = [1%Z] /\
  map t_id (transcripts (store (snd (transcribe_video self0 env0 "v"
                                       said_hello)))) = [2%Z; 3%Z] /\
  index_rowids_fresh (store said_hello)
    (store (snd (transcribe_video self0 env0 "v" said_hello))).
Proof.
  assert (Ht : map t_id (transcripts (store said_hello)) = [1%Z])
    by (vm_compute; reflexivity).
  assert (Hq : transcripts_seq (store said_hello) = 1%Z)
    by (vm_compute; reflexivity).
  assert (Hs : map s_id (scenes (store said_hello)) = [])
    by (vm_compute; reflexivity).
  assert (H0 : index_rowids_ok (store said_hello)).
  { unfold index_rowids_ok, rowids_ok. rewrite Ht, Hq, Hs.
    repeat split; repeat constructor. lia. }
  split; [exact H0|]. split; [exact Ht|].
  split; [vm_compute; reflexivity|].
  apply (stages_keep_rowids self0 env0 "clips/in.avi" (Some "v") "v"
           default_threshold said_hello _ H0).
  right. left. reflexivity.
Defined.

End RowidFacts.

(** * Further properties: the test video *)

Module TestVideoFacts.
Import TestVideo.

(** In the video [create_test_video] writes, the background changes
    between two consecutive frames exactly when the second one is frame
    [total_frames // 3] or frame [2 * total_frames // 3]: there are at
    most two cuts, hence at most three runs of one colour. *)
Theorem frame_colour_changes (total_frames i : nat) :
  frame_colour total_frames i ≠ frame_colour total_frames (S i)
  <-> S i = total_frames / 3 \/ S i = 2 * total_frames / 3.
Proof.
  assert (Hle : total_frames / 3 <= 2 * total_frames / 3)
    by (apply Nat.Div0.div_le_mono; lia).
  unfold frame_colour.
  destruct (Nat.ltb_spec i (total_frames / 3)),
    (Nat.ltb_spec (S i) (total_frames / 3)),
    (Nat.ltb_spec i (2 * total_frames / 3)),
    (Nat.ltb_spec (S i) (2 * total_frames / 3));
    split; intros Hc; try lia; try discriminate;
    try (exfalso; apply Hc; reflexivity).
Qed.

End TestVideoFacts.
